(** * Image distribution protocol of the docker engine (commands.go)

    A shallow embedding of the push and pull commands of
    [components/engine/commands.go] ([CmdPush], [CmdPulli]) together with the
    metadata decoders they use ([newImgJson], [newMultipleImgJson],
    [getHistory], [getRemoteImage]), and their properties.

    - Byte slices and Go strings are both [string].
    - encoding/json is a scanner over the bytes of the input, with a stack of
      open containers as the library has it, followed by the decoding of a
      JSON value into the [Image] struct.
    - The commands run in a [State]: the local graph (a finite map keyed by
      image id), the requests and [Register] calls made so far, and what was
      written to standard output.  The network is a function from the
      requests made so far and the request at hand to an answer; the graph's
      directory is read through a [Disk].
    - The graph, the [Image] struct, [WalkHistory] and [Tar] live in files
      that are not part of commands.go; they are modelled from the spec, and
      say so.
    - The other commands embedded here ([CmdStop], [CmdRestart], [CmdStart],
      [CmdMount], [CmdRm], [CmdKill], [CmdRmi], [CmdHistory], [CmdImages],
      [ports.Set]) come after these.  The runtime and its containers are an
      interface, [Runtime]; the orders in which Go goes over its maps are
      left open, as [Ranges]. *)

From Stdlib Require Import Ascii String List Arith Lia Permutation.
From stdpp Require Import base option list gmap strings pretty.
Import ListNotations.

Local Open Scope char_scope.
Local Open Scope stdpp_scope.

(** ** Results of fallible calls *)

(** A Go call returning [(T, error)] returns [Ok v] for [(v, nil)] and
    [Err e] for [(_, e)] with [e] non-nil. *)
Inductive result (E A : Type) : Type :=
| Ok (v : A)
| Err (e : E).
Arguments Ok {E A} v.
Arguments Err {E A} e.

Definition is_ok {E A} (r : result E A) : bool :=
  match r with Ok _ => true | Err _ => false end.

(** ** Characters *)

(** The double quote, written by its decimal code. *)
Definition dquote : ascii := "034".
Definition quoted (s : string) : string := String dquote (s +:+ String dquote "").

Definition is_digit (c : ascii) : bool :=
  match c with
  | "0" | "1" | "2" | "3" | "4" | "5" | "6" | "7" | "8" | "9" => true
  | _ => false
  end%char.

Definition is_digit19 (c : ascii) : bool :=
  match c with
  | "1" | "2" | "3" | "4" | "5" | "6" | "7" | "8" | "9" => true
  | _ => false
  end%char.

Definition hex_val (c : ascii) : option N :=
  match c with
  | "0" => Some 0%N | "1" => Some 1%N | "2" => Some 2%N | "3" => Some 3%N
  | "4" => Some 4%N | "5" => Some 5%N | "6" => Some 6%N | "7" => Some 7%N
  | "8" => Some 8%N | "9" => Some 9%N
  | "a" | "A" => Some 10%N | "b" | "B" => Some 11%N | "c" | "C" => Some 12%N
  | "d" | "D" => Some 13%N | "e" | "E" => Some 14%N | "f" | "F" => Some 15%N
  | _ => None
  end%char.

(** JSON insignificant white space: space, tab, line feed, carriage return. *)
Definition is_json_space (c : ascii) : bool :=
  match c with
  | " " | "009" | "010" | "013" => true
  | _ => false
  end%char.

(** ASCII lower-casing, for the case-insensitive match of object keys against
    struct field names done by encoding/json. *)
Definition to_lower (c : ascii) : ascii :=
  let n := N_of_ascii c in
  if ((65 <=? n) && (n <=? 90))%N then ascii_of_N (n + 32) else c.

Fixpoint lower (s : string) : string :=
  match s with
  | "" => ""
  | String c s' => String (to_lower c) (lower s')
  end.

(** ** strings.Replace

    [Replace s old new] is Go's [strings.Replace(s, old, new, -1)] for a
    non-empty [old] (the only use in commands.go has the four bytes null): every
    non-overlapping occurrence of [old], leftmost first, is replaced by
    [new].  [replace_go skip s] is the scan at a position where [skip] more
    bytes belong to the occurrence found last. *)
Fixpoint replace_go (old new : string) (skip : nat) (s : string) : string :=
  match s with
  | "" => ""
  | String c s' =>
      match skip with
      | S k => replace_go old new k s'
      | O =>
          if String.prefix old s
          then new +:+ replace_go old new (Nat.pred (String.length old)) s'
          else String c (replace_go old new 0 s')
      end
  end.

Definition Replace (s old new : string) : string := replace_go old new 0 s.

(** The replacement of commands.go lines 526 and 538: every null becomes
    a pair of double quotes, the JSON text of the empty string. *)
Definition empty_string_literal : string := String dquote (String dquote "").
Definition purify (src : string) : string := Replace src "null" empty_string_literal.

(** ** JSON values and the encoding/json scanner *)

#[warnings="-register-all"]
Inductive json : Type :=
| JNull
| JBool (b : bool)
| JNum (raw : string)
| JStr (s : string)
| JArr (elems : list json)
| JObj (fields : list (string * json)).

(** An open container on the scanner's parse stack; elements and fields are
    kept latest first. *)
Inductive frame : Type :=
| FArr (elems : list json)
| FObjK (fields : list (string * json))
| FObjV (fields : list (string * json)) (key : string).

(** States of a number: [NZero], [NInt], [NFrac] and [NExp] are accepting. *)
Inductive numst : Type := NNeg | NZero | NInt | NDot | NFrac | NE | NESign | NExp.

Definition num_accepting (q : numst) : bool :=
  match q with
  | NZero | NInt | NFrac | NExp => true
  | _ => false
  end.

Definition num_step (q : numst) (c : ascii) : option numst :=
  match q with
  | NNeg => if (c =? "0")%char then Some NZero
            else if is_digit19 c then Some NInt else None
  | NZero => if (c =? ".")%char then Some NDot
             else if ((c =? "e") || (c =? "E"))%char then Some NE else None
  | NInt => if is_digit c then Some NInt
            else if (c =? ".")%char then Some NDot
            else if ((c =? "e") || (c =? "E"))%char then Some NE else None
  | NDot => if is_digit c then Some NFrac else None
  | NFrac => if is_digit c then Some NFrac
             else if ((c =? "e") || (c =? "E"))%char then Some NE else None
  | NE => if ((c =? "+") || (c =? "-"))%char then Some NESign
          else if is_digit c then Some NExp else None
  | NESign => if is_digit c then Some NExp else None
  | NExp => if is_digit c then Some NExp else None
  end.

(** What the scanner expects next.  Accumulators hold bytes latest first. *)
Inductive mode : Type :=
| MValue (close_ok : bool)   (* a value; [close_ok]: just after an opening bracket *)
| MKey (close_ok : bool)     (* an object key; [close_ok]: just after an opening brace *)
| MColon                     (* the colon after a key *)
| MAfter                     (* a comma or the end of the open container *)
| MStr (acc : string)        (* inside a string literal *)
| MEsc (acc : string)        (* after a backslash *)
| MHex (acc : string) (n : nat)   (* [n] hex digits of a \u escape to come *)
| MNum (q : numst) (acc : string)
| MLit (rest : string) (v : json) (* inside true, false or null *)
| MErr.                      (* syntax error, absorbing *)

Record scanner : Type := Scanner {
  stack : list frame;
  md : mode;
  emitted : list json        (* completed top-level values, latest first *)
}.

Definition scan_error (sc : scanner) : scanner :=
  Scanner (stack sc) MErr (emitted sc).

(** A complete value is attached to the innermost open container, or emitted
    when there is none. *)
Definition push_value (sc : scanner) (v : json) : scanner :=
  match stack sc with
  | [] => Scanner [] (MValue false) (v :: emitted sc)
  | FArr es :: st => Scanner (FArr (v :: es) :: st) MAfter (emitted sc)
  | FObjV fs k :: st => Scanner (FObjK ((k, v) :: fs) :: st) MAfter (emitted sc)
  | FObjK _ :: _ => scan_error sc
  end.

Definition close_array (sc : scanner) : scanner :=
  match stack sc with
  | FArr es :: st => push_value (Scanner st MAfter (emitted sc)) (JArr (rev es))
  | _ => scan_error sc
  end.

Definition close_object (sc : scanner) : scanner :=
  match stack sc with
  | FObjK fs :: st => push_value (Scanner st MAfter (emitted sc)) (JObj (rev fs))
  | _ => scan_error sc
  end.

(** *** Unquoting a string literal (decode.go, unquote) *)

Definition byte_of (n : N) : ascii := ascii_of_N n.

Definition utf8 (r : N) : string :=
  if (r <? 0x80)%N then String (byte_of r) ""
  else if (r <? 0x800)%N then
    String (byte_of (0xC0 + r / 64)) (String (byte_of (0x80 + r mod 64)) "")
  else if (r <? 0x10000)%N then
    String (byte_of (0xE0 + r / 4096))
      (String (byte_of (0x80 + (r / 64) mod 64))
         (String (byte_of (0x80 + r mod 64)) ""))
  else
    String (byte_of (0xF0 + r / 262144))
      (String (byte_of (0x80 + (r / 4096) mod 64))
         (String (byte_of (0x80 + (r / 64) mod 64))
            (String (byte_of (0x80 + r mod 64)) ""))).

Definition hex4 (a b c d : ascii) : N :=
  match hex_val a, hex_val b, hex_val c, hex_val d with
  | Some x, Some y, Some z, Some w => (((x * 16 + y) * 16 + z) * 16 + w)%N
  | _, _, _, _ => 0xFFFD%N
  end.

Definition is_surrogate (r : N) : bool := ((0xD800 <=? r) && (r <? 0xE000))%N.

(** utf16.DecodeRune: the code point of a surrogate pair, U+FFFD when the
    two halves do not form one. *)
Definition decode_pair (r1 r2 : N) : N :=
  if ((0xD800 <=? r1) && (r1 <? 0xDC00) && (0xDC00 <=? r2) && (r2 <? 0xE000))%N
  then ((r1 - 0xD800) * 1024 + (r2 - 0xDC00) + 0x10000)%N
  else 0xFFFD%N.

Definition unescape (c : ascii) : ascii :=
  match c with
  | "b" => "008" | "f" => "012" | "n" => "010" | "r" => "013" | "t" => "009"
  | _ => c
  end%char.

(** The body of a string literal whose escapes the scanner has accepted. *)
Fixpoint unquote (s : string) : string :=
  match s with
  | "" => ""
  | String "\" (String "u" (String a (String b (String c (String d rest))))) =>
      let r := hex4 a b c d in
      if is_surrogate r then
        match rest with
        | String "\" (String "u" (String e (String f (String g (String h rest'))))) =>
            let dec := decode_pair r (hex4 e f g h) in
            if (dec =? 0xFFFD)%N then utf8 0xFFFD +:+ unquote rest
            else utf8 dec +:+ unquote rest'
        | _ => utf8 0xFFFD +:+ unquote rest
        end
      else utf8 r +:+ unquote rest
  | String "\" (String c rest) => String (unescape c) (unquote rest)
  | String c rest => String c (unquote rest)
  end.

(** A complete string literal is an object key when the innermost open
    container is an object awaiting one, and a value otherwise. *)
Definition push_string (sc : scanner) (body : string) : scanner :=
  match stack sc with
  | FObjK fs :: st => Scanner (FObjV fs (unquote body) :: st) MColon (emitted sc)
  | _ => push_value sc (JStr (unquote body))
  end.

(** *** One byte of input *)

Definition with_mode (sc : scanner) (m : mode) : scanner :=
  Scanner (stack sc) m (emitted sc).

Definition open_container (sc : scanner) (f : frame) (m : mode) : scanner :=
  Scanner (f :: stack sc) m (emitted sc).

Definition begin_value (sc : scanner) (close_ok : bool) (c : ascii) : scanner :=
  if is_json_space c then sc
  else if (c =? "{")%char then open_container sc (FObjK []) (MKey true)
  else if (c =? "[")%char then open_container sc (FArr []) (MValue true)
  else if (c =? dquote)%char then with_mode sc (MStr "")
  else if (c =? "-")%char then with_mode sc (MNum NNeg (String c ""))
  else if (c =? "0")%char then with_mode sc (MNum NZero (String c ""))
  else if is_digit19 c then with_mode sc (MNum NInt (String c ""))
  else if (c =? "t")%char then with_mode sc (MLit "rue" (JBool true))
  else if (c =? "f")%char then with_mode sc (MLit "alse" (JBool false))
  else if (c =? "n")%char then with_mode sc (MLit "ull" JNull)
  else if ((c =? "]")%char && close_ok)%bool then close_array sc
  else scan_error sc.

(** Every state but that of a number. *)
Definition step_plain (sc : scanner) (c : ascii) : scanner :=
  match md sc with
  | MValue close_ok => begin_value sc close_ok c
  | MKey close_ok =>
      if is_json_space c then sc
      else if (c =? dquote)%char then with_mode sc (MStr "")
      else if ((c =? "}")%char && close_ok)%bool then close_object sc
      else scan_error sc
  | MColon =>
      if is_json_space c then sc
      else if (c =? ":")%char then with_mode sc (MValue false)
      else scan_error sc
  | MAfter =>
      if is_json_space c then sc
      else if (c =? ",")%char then
        match stack sc with
        | FArr _ :: _ => with_mode sc (MValue false)
        | FObjK _ :: _ => with_mode sc (MKey false)
        | _ => scan_error sc
        end
      else if (c =? "]")%char then close_array sc
      else if (c =? "}")%char then close_object sc
      else scan_error sc
  | MStr acc =>
      if (c =? dquote)%char then push_string sc (String.rev acc)
      else if (c =? "\")%char then with_mode sc (MEsc (String c acc))
      else if (N_of_ascii c <? 32)%N then scan_error sc
      else with_mode sc (MStr (String c acc))
  | MEsc acc =>
      if ((c =? dquote) || (c =? "\") || (c =? "/") || (c =? "b") || (c =? "f")
          || (c =? "n") || (c =? "r") || (c =? "t"))%char
      then with_mode sc (MStr (String c acc))
      else if (c =? "u")%char then with_mode sc (MHex (String c acc) 4)
      else scan_error sc
  | MHex acc n =>
      match hex_val c, n with
      | Some _, S (S k) => with_mode sc (MHex (String c acc) (S k))
      | Some _, _ => with_mode sc (MStr (String c acc))
      | None, _ => scan_error sc
      end
  | MLit rest v =>
      match rest with
      | String r "" => if (c =? r)%char then push_value sc v else scan_error sc
      | String r rest' => if (c =? r)%char then with_mode sc (MLit rest' v)
                          else scan_error sc
      | "" => scan_error sc
      end
  | MNum _ _ => scan_error sc
  | MErr => sc
  end.

(** A number ends at the first byte that cannot continue it; that byte is
    then read in the state that follows the number. *)
Definition step (sc : scanner) (c : ascii) : scanner :=
  match md sc with
  | MNum q acc =>
      match num_step q c with
      | Some q' => with_mode sc (MNum q' (String c acc))
      | None =>
          if num_accepting q
          then step_plain (push_value sc (JNum (String.rev acc))) c
          else scan_error sc
      end
  | _ => step_plain sc c
  end.

Fixpoint run (sc : scanner) (s : string) : scanner :=
  match s with
  | "" => sc
  | String c s' => run (step sc c) s'
  end.

Definition scan_start : scanner := Scanner [] (MValue false) [].

(** End of input: every container closed and no token left open. *)
Definition finish (sc : scanner) : option (list json) :=
  match stack sc, md sc with
  | [], MValue false => Some (rev (emitted sc))
  | [], MNum q acc =>
      if num_accepting q
      then Some (rev (JNum (String.rev acc) :: emitted sc))
      else None
  | _, _ => None
  end.

(** The top-level values of a stream of JSON texts, [None] on a syntax
    error or an input that ends inside a value. *)
Definition scan_values (s : string) : option (list json) :=
  finish (run scan_start s).

(** ** The Image record and its decoding *)

(** Modelled from the spec: the [Image] struct (image.go is not under src/),
    with the fields of the data model: id, parent, comment, creation time
    and parent command.  The creation time is kept as its RFC 3339 text. *)
Record Image : Type := mkImage {
  Id : string;
  Parent : string;
  Comment : string;
  Created : string;
  ParentCommand : list string
}.

(** [&Image{}]: every field at its zero value. *)
Definition zero_Image : Image := mkImage "" "" "" "" [].

Definition set_Id (img : Image) (v : string) : Image :=
  mkImage v (Parent img) (Comment img) (Created img) (ParentCommand img).
Definition set_Parent (img : Image) (v : string) : Image :=
  mkImage (Id img) v (Comment img) (Created img) (ParentCommand img).
Definition set_Comment (img : Image) (v : string) : Image :=
  mkImage (Id img) (Parent img) v (Created img) (ParentCommand img).
Definition set_Created (img : Image) (v : string) : Image :=
  mkImage (Id img) (Parent img) (Comment img) v (ParentCommand img).
Definition set_ParentCommand (img : Image) (v : list string) : Image :=
  mkImage (Id img) (Parent img) (Comment img) (Created img) v.

Inductive json_error : Type :=
| SyntaxError                  (* invalid text, or the input ends inside a value *)
| UnmarshalTypeError (field : string).

(** The number written by the [n] decimal digits of [s] from position [i]. *)
Fixpoint digits_at (s : string) (i n : nat) (acc : nat) : option nat :=
  match n with
  | O => Some acc
  | S n' =>
      match String.get i s with
      | Some c =>
          match Ascii.is_nat c with
          | Some d => digits_at s (S i) n' (10 * acc + d)
          | None => None
          end
      | None => None
      end
  end.

Definition char_at (s : string) (i : nat) (c : ascii) : bool :=
  match String.get i s with
  | Some x => (x =? c)%char
  | None => false
  end.

Definition present (o : option nat) : bool :=
  match o with
  | Some _ => true
  | None => false
  end.

Definition below (o : option nat) (bound : nat) : bool :=
  match o with
  | Some n => (n <? bound)%nat
  | None => false
  end.

Definition between (o : option nat) (lo hi : nat) : bool :=
  match o with
  | Some n => ((lo <=? n) && (n <=? hi))%nat
  | None => false
  end.

Fixpoint skip_digits (s : string) : string :=
  match s with
  | String c s' => if is_digit c then skip_digits s' else s
  | "" => ""
  end.

(** The zone of an RFC 3339 time: Z, or a signed hh:mm offset. *)
Definition zone_ok (z : string) : bool :=
  (z =? "Z")%string
  || ((String.length z =? 6)%nat
      && (char_at z 0 "+" || char_at z 0 "-")
      && below (digits_at z 1 2 0) 24
      && char_at z 3 ":"
      && below (digits_at z 4 2 0) 60).

(** The texts time.Time accepts when unmarshalled (layout
    2006-01-02T15:04:05Z07:00, with an optional fraction of seconds);
    the day is checked against 31, not against the month's length. *)
Definition rfc3339 (s : string) : bool :=
  present (digits_at s 0 4 0)
  && char_at s 4 "-" && between (digits_at s 5 2 0) 1 12
  && char_at s 7 "-" && between (digits_at s 8 2 0) 1 31
  && char_at s 10 "T" && below (digits_at s 11 2 0) 24
  && char_at s 13 ":" && below (digits_at s 14 2 0) 60
  && char_at s 16 ":" && below (digits_at s 17 2 0) 60
  && match String.substring 19 (String.length s - 19) s with
     | String "." (String d frac) => is_digit d && zone_ok (skip_digits frac)
     | z => zone_ok z
     end.

Definition decode_string (field : string) (v : json) (old : string)
  : result json_error string :=
  match v with
  | JStr s => Ok s
  | JNull => Ok old
  | _ => Err (UnmarshalTypeError field)
  end.

Fixpoint decode_strings (field : string) (vs : list json)
  : result json_error (list string) :=
  match vs with
  | [] => Ok []
  | v :: vs' =>
      match decode_string field v "", decode_strings field vs' with
      | Ok s, Ok l => Ok (s :: l)
      | Err e, _ => Err e
      | _, Err e => Err e
      end
  end.

(** One object member stored into the struct: the key is matched against
    the field names without regard to case, an unknown key is skipped, a
    null leaves the field as it is. *)
Definition decode_field (img : Image) (k : string) (v : json)
  : result json_error Image :=
  let key := lower k in
  if (key =? "id")%string then
    match decode_string "Id" v (Id img) with
    | Ok s => Ok (set_Id img s) | Err e => Err e end
  else if (key =? "parent")%string then
    match decode_string "Parent" v (Parent img) with
    | Ok s => Ok (set_Parent img s) | Err e => Err e end
  else if (key =? "comment")%string then
    match decode_string "Comment" v (Comment img) with
    | Ok s => Ok (set_Comment img s) | Err e => Err e end
  else if (key =? "created")%string then
    match v with
    | JNull => Ok img
    | JStr s => if rfc3339 s then Ok (set_Created img s)
                else Err (UnmarshalTypeError "Created")
    | _ => Err (UnmarshalTypeError "Created")
    end
  else if (key =? "parentcommand")%string then
    match v with
    | JNull => Ok (set_ParentCommand img [])
    | JArr vs =>
        match decode_strings "ParentCommand" vs with
        | Ok l => Ok (set_ParentCommand img l) | Err e => Err e end
    | _ => Err (UnmarshalTypeError "ParentCommand")
    end
  else Ok img.

Fixpoint decode_fields (fs : list (string * json)) (img : Image)
  : result json_error Image :=
  match fs with
  | [] => Ok img
  | (k, v) :: fs' =>
      match decode_field img k v with
      | Ok img' => decode_fields fs' img'
      | Err e => Err e
      end
  end.

(** A JSON value stored into an [*Image]. *)
Definition decode_Image (v : json) (into : Image) : result json_error Image :=
  match v with
  | JObj fs => decode_fields fs into
  | JNull => Ok into
  | _ => Err (UnmarshalTypeError "Image")
  end.

(** [json.Unmarshal(src, ret)]: [src] has to be exactly one JSON text. *)
Definition Unmarshal (src : string) (into : Image) : result json_error Image :=
  match scan_values src with
  | Some [v] => decode_Image v into
  | _ => Err SyntaxError
  end.

(** [json.NewDecoder] over a string reader.  The decoder hands out the
    values of the stream one by one; [clean_end] tells whether the input
    after the last of them is only white space (io.EOF) or cannot be read
    as a value (an error). *)
Record Decoder : Type := mkDecoder {
  pending : list json;
  clean_end : bool
}.

Definition NewDecoder (src : string) : Decoder :=
  let sc := run scan_start src in
  match finish sc with
  | Some vs => mkDecoder vs true
  | None => mkDecoder (rev (emitted sc)) false
  end.

Inductive decode_outcome : Type :=
| DecEOF
| DecErr (e : json_error)
| DecOk (img : Image) (dec : Decoder).

(** [dec.Decode(m)] with [m] a fresh [&Image{}]. *)
Definition Decode (dec : Decoder) : decode_outcome :=
  match pending dec with
  | v :: vs =>
      match decode_Image v zero_Image with
      | Ok img => DecOk img (mkDecoder vs (clean_end dec))
      | Err e => DecErr e
      end
  | [] => if clean_end dec then DecEOF else DecErr SyntaxError
  end.

(** ** The metadata decoders of commands.go *)

(** [newImgJson] (lines 521-532).  The debugging print to the process's
    standard output is left out. *)
Definition newImgJson (src : string) : result json_error Image :=
  let ret := zero_Image in
  let src := purify src in
  match Unmarshal src ret with
  | Err err => Err err
  | Ok ret => Ok ret
  end.

(** The loop of [newMultipleImgJson] (lines 539-547), by recursion on the
    values the decoder still holds: each turn is one [dec.Decode(m)] into a
    fresh [&Image{}] ([decode_loop_Decode] below states the loop in terms of
    [Decode]).  The Go map is keyed by the pointer of each freshly
    allocated [Image], so every decoded record is an entry of its own;
    [ret] lists the entries in the order they were added. *)
Fixpoint decode_loop (vs : list json) (clean : bool) (ret : list Image)
  : result json_error (list Image) :=
  match vs with
  | [] => if clean then Ok ret else Err SyntaxError
  | v :: vs' =>
      match decode_Image v zero_Image with
      | Err err => Err err
      | Ok m => decode_loop vs' clean (ret ++ [m])
      end
  end.

(** [newMultipleImgJson] (lines 534-549). *)
Definition newMultipleImgJson (src : string) : result json_error (list Image) :=
  let dec := NewDecoder (purify src) in
  decode_loop (pending dec) (clean_end dec) [].

(** ** The world of the two commands *)

(** *** HTTP *)

Inductive body : Type :=
| NoBody                       (* a nil reader *)
| StringsReader (s : string)   (* [strings.NewReader(s)] *)
| Stream (s : string).         (* any other reader, here an archive *)

Definition body_bytes (b : body) : string :=
  match b with
  | NoBody => ""
  | StringsReader s | Stream s => s
  end.

Record Request : Type := mkRequest {
  Method : string;
  URL : string;
  ReqBody : body;
  ContentLength : nat;
  TransferEncoding : list string
}.

(** [http.NewRequest]: the length of the body is known for a strings
    reader only. *)
Definition NewRequest (method url : string) (b : body) : Request :=
  mkRequest method url b
    (match b with StringsReader s => String.length s | _ => 0 end) [].

(** A response body is a live reader: [read_error] is the error its
    reading ends with, if any. *)
Record Reader : Type := mkReader {
  data : string;
  read_error : option string
}.

(** [ioutil.ReadAll]. *)
Definition ReadAll (r : Reader) : result string string :=
  match read_error r with
  | None => Ok (data r)
  | Some e => Err e
  end.

Record Response : Type := mkResponse {
  StatusCode : Z;
  Location : result string string;   (* the outcome of [res.Location()] *)
  Body : Reader
}.

(** The registry, and whatever else answers HTTP requests: its answer to a
    request may depend on the requests made before.  [Err] is a transport
    error (a nil response with a non-nil error). *)
Definition Net : Type := list Request → Request → result string Response.

(** The place in commands.go a request is made from. *)
Inductive Phase : Type :=
| PutJson | PutLayer | PutStorage | GetHistory | GetJson | GetLayer.

Global Instance Phase_eq_dec : EqDecision Phase.
Proof. solve_decision. Defined.

(** Calls that leave the process, in the order they are made: the HTTP
    requests, each with the place it is made from and the image id it is
    made for, and the calls of [graph.Register]. *)
Inductive Event : Type :=
| EvHttp (ph : Phase) (id : string) (req : Request)
| EvRegister (img : Image) (layer : Reader).

Definition request_of (e : Event) : option Request :=
  match e with
  | EvHttp _ _ req => Some req
  | EvRegister _ _ => None
  end.

Definition requests (tr : list Event) : list Request := omap request_of tr.

(** *** The local graph and its directory *)

(** Modelled from the spec: the Image Graph (graph.go is not under src/),
    the local store owning the Image records and their layer archives. *)
Record Entry : Type := mkEntry {
  image : Image;
  layer : string
}.

Abbreviation Graph := (gmap string Entry).

(** Modelled from the spec: the graph's directory as the commands read and
    write it.  [ReadFile] is ioutil.ReadFile; [Tar] is the Layer Archive
    Codec (archive.go is not under src/), its archive taken fully
    materialised and a function of the directory archived; both answer by
    path.  [write_fails] tells for which ids storing an image fails. *)
Record Disk : Type := mkDisk {
  Root : string;
  ReadFile : string → result string string;
  Tar : string → result string string;
  write_fails : string → bool
}.

(** Modelled from the spec: [Graph.Get], failing when the id is absent. *)
Definition Get (g : Graph) (id : string) : result string Image :=
  match g !! id with
  | Some e => Ok (image e)
  | None => Err ("Image does not exist: " +:+ id)
  end.

(** Modelled from the spec: [Graph.Exists]. *)
Definition Exists (g : Graph) (id : string) : bool :=
  bool_decide (is_Some (g !! id)).

(** Modelled from the spec: [Graph.Register], atomic: the image and its
    layer are both stored, or the graph is left as it was.  It fails when
    the layer cannot be read to its end or the disk refuses the write. *)
Definition Register (d : Disk) (g : Graph) (layer : Reader) (img : Image)
  : result string Graph :=
  match ReadAll layer with
  | Err e => Err e
  | Ok bytes =>
      if write_fails d (Id img) then Err ("cannot store image " +:+ Id img)
      else Ok (<[Id img := mkEntry img bytes]> g)
  end.

(** Modelled from the spec: the ancestor chain of an image, leaf first,
    following the parent links for at most [fuel] images (image.go is not
    under src/).  A parent that is not in the graph ends the chain. *)
Fixpoint ancestors (g : Graph) (fuel : nat) (img : Image) : list Image :=
  match fuel with
  | O => []
  | S n =>
      img :: (if (Parent img =? "")%string then []
              else match g !! Parent img with
                   | Some e => ancestors g n (image e)
                   | None => []
                   end)
  end.

(** The spec's invariant that parent links end at a root bounds a chain by
    the number of images of the graph. *)
Definition History (g : Graph) (img : Image) : list Image :=
  ancestors g (S (size g)) img.

(** Modelled from the spec: [Image.WalkHistory], the handler called on
    every image of the chain from the leaf to the root. *)
Definition WalkHistory {S : Type} (g : Graph) (img : Image)
    (handler : Image → S → S) (s : S) : S :=
  fold_left (fun s i => handler i s) (History g img) s.

(** [path.Join] of three clean, non-empty elements. *)
Definition path_Join (a b c : string) : string := a +:+ "/" +:+ b +:+ "/" +:+ c.

(** *** Standard output *)

Definition nl : string := String "010" "".

(** A Go error formatted with %s; a nil error prints as below. *)
Definition show_err (e : option string) : string :=
  match e with
  | Some m => m
  | None => "%!s(<nil>)"
  end.

(** The lines [CmdPush] writes, one constructor for each [Fprintf]. *)
Inductive Msg : Type :=
| Usage (name signature description : string)
| Pushing (id : string)
| ErrPath (id err : string)
| ErrJsonNoResponse (id err : string)
| AlreadyOnRepository
| InvalidJson
| ErrJsonStatus (id : string) (code : Z)
| ErrLayer1 (id : string) (err : option string)
| ErrLocation (id err : string)
| ErrArchive (id err : string)
| ErrLayer2NoResponse (id err : string)
| ErrLayer2Status (id : string) (code : Z).

Definition render (m : Msg) : string :=
  match m with
  | Usage name signature description =>
      nl +:+ "Usage: docker " +:+ name +:+ " " +:+ signature +:+ nl +:+ nl
      +:+ description +:+ nl +:+ nl
  | Pushing id => "Pushing " +:+ id +:+ nl
  | ErrPath id err =>
      "Error while retreiving the path for {" +:+ id +:+ "}: " +:+ err +:+ nl
  | ErrJsonNoResponse id err =>
      "Error: Internal server error trying to push image {" +:+ id
      +:+ "} (json): " +:+ err +:+ nl
  | AlreadyOnRepository => "Image already on the repository" +:+ nl
  | InvalidJson => "Error: Invalid Json" +:+ nl
  | ErrJsonStatus id code =>
      "Error: Internal server error trying to push image {" +:+ id
      +:+ "} (json): " +:+ show_err None +:+ " (" +:+ pretty code +:+ ")" +:+ nl
  | ErrLayer1 id err =>
      "Error trying to push image {" +:+ id +:+ "} (layer 1): "
      +:+ show_err err +:+ nl
  | ErrLocation id err =>
      "Fail to retrieve layer storage URL for image {" +:+ id +:+ "}: "
      +:+ err +:+ nl
  | ErrArchive id err =>
      "Error while retrieving layer for {" +:+ id +:+ "}: " +:+ err +:+ nl
  | ErrLayer2NoResponse id err =>
      "Error trying to push image {" +:+ id +:+ "} (layer 2): " +:+ err +:+ nl
  | ErrLayer2Status id code =>
      "Error trying to push image {" +:+ id +:+ "} (layer 2): "
      +:+ show_err None +:+ " (" +:+ pretty code +:+ ")" +:+ nl
  end.

(** *** The state the commands run in *)

Record State : Type := mkState {
  graph : Graph;
  trace : list Event;
  stdout : list Msg
}.

Definition Fprintf (st : State) (m : Msg) : State :=
  mkState (graph st) (trace st) (stdout st ++ [m]).

Definition log_event (st : State) (e : Event) : State :=
  mkState (graph st) (trace st ++ [e]) (stdout st).

Definition with_graph (st : State) (g : Graph) : State :=
  mkState g (trace st) (stdout st).

(** What standard output holds. *)
Definition printed (st : State) : string :=
  fold_right (fun m s => render m +:+ s) "" (stdout st).

(** [client.Do(req)], and [http.Get] below: the request goes out and the
    network answers. *)
Definition Do (net : Net) (ph : Phase) (id : string) (req : Request)
    (st : State) : result string Response * State :=
  (net (requests (trace st)) req, log_event st (EvHttp ph id req)).

Definition http_Get (net : Net) (ph : Phase) (id url : string) (st : State)
  : result string Response * State :=
  Do net ph id (NewRequest "GET" url NoBody) st.

Definition REGISTRY_ENDPOINT : string := "http://registry-creack.dotcloud.com/v1".

(** ** Push *)

(** The three requests of an upload. *)
Definition json_request (id jsonRaw : string) : Request :=
  NewRequest "PUT" (REGISTRY_ENDPOINT +:+ "/images/" +:+ id +:+ "/json")
    (StringsReader jsonRaw).

Definition layer_request (id : string) : Request :=
  NewRequest "PUT" (REGISTRY_ENDPOINT +:+ "/images/" +:+ id +:+ "/layer") NoBody.

(** [req3] of lines 498-502: the body is the archive [layerData], the
    declared length is that of [tmp], transfer encoding is set to none. *)
Definition storage_request (url layerData tmp : string) : Request :=
  let req3 := NewRequest "PUT" url (Stream layerData) in
  mkRequest (Method req3) (URL req3) (ReqBody req3) (String.length tmp) ["none"].

(** The handler [CmdPush] passes to [WalkHistory] (lines 441-516): the
    upload of one image. *)
Definition push_image (d : Disk) (net : Net) (img : Image) (st : State) : State :=
  let st := Fprintf st (Pushing (Id img)) in
  match ReadFile d (path_Join (Root d) (Id img) "json") with
  | Err err => Fprintf st (ErrPath (Id img) err)
  | Ok jsonRaw =>
      let (res, st) := Do net PutJson (Id img) (json_request (Id img) jsonRaw) st in
      match res with
      | Err err => Fprintf st (ErrJsonNoResponse (Id img) err)
      | Ok res =>
          if negb (StatusCode res =? 200)%Z then
            if (StatusCode res =? 204)%Z then Fprintf st AlreadyOnRepository
            else if (StatusCode res =? 400)%Z then Fprintf st InvalidJson
            else Fprintf st (ErrJsonStatus (Id img) (StatusCode res))
          else
            let (res2, st) := Do net PutLayer (Id img) (layer_request (Id img)) st in
            match res2 with
            | Err err => Fprintf st (ErrLayer1 (Id img) (Some err))
            | Ok res2 =>
                if negb (StatusCode res2 =? 307)%Z
                then Fprintf st (ErrLayer1 (Id img) None)
                else
                  match Location res2 with
                  | Err err => Fprintf st (ErrLocation (Id img) err)
                  | Ok url =>
                      let layerData2 := Tar d (path_Join (Root d) (Id img) "layer") in
                      match Tar d (path_Join (Root d) (Id img) "layer") with
                      | Err err => Fprintf st (ErrArchive (Id img) err)
                      | Ok layerData =>
                          let tmp := match layerData2 with
                                     | Ok b => b
                                     | Err _ => ""
                                     end in
                          let req3 := storage_request url layerData tmp in
                          let (res3, st) := Do net PutStorage (Id img) req3 st in
                          match res3 with
                          | Err err => Fprintf st (ErrLayer2NoResponse (Id img) err)
                          | Ok res3 =>
                              if negb (StatusCode res3 =? 200)%Z
                              then Fprintf st (ErrLayer2Status (Id img) (StatusCode res3))
                              else st
                          end
                      end
                  end
            end
      end
  end.

(** The handler run over a chain, as [WalkHistory] does. *)
Definition push_chain (d : Disk) (net : Net) (chain : list Image) (st : State)
  : State :=
  fold_left (fun s i => push_image d net i s) chain st.

(** The outcome of [cmd.Parse(args)], the flag parser being outside this
    file: an error, or the arguments left after the flags.  What the
    parser itself prints on an error is not part of [stdout]. *)
Inductive Args : Type :=
| BadArgs
| Positional (args : list string).

(** [CmdPush] (lines 427-519).  The Go [error] it returns is [None] for
    nil. *)
Definition CmdPush (d : Disk) (net : Net) (args : Args) (st : State)
  : option string * State :=
  match args with
  | BadArgs => (None, st)
  | Positional [] =>
      (None, Fprintf st (Usage "push" "[OPTIONS] IMAGE" "Push an image to the registry"))
  | Positional (name :: _) =>
      match Get (graph st) name with
      | Err _ => (None, st)
      | Ok img => (None, WalkHistory (graph st) img (push_image d net) st)
      end
  end.

(** ** Pull *)

(** The errors [CmdPulli] returns: the three [fmt.Errorf] of [getHistory]
    and [getRemoteImage], and the error of [Register] as it is. *)
Inductive error : Type :=
| FromServer (err : string)        (* Error while getting from the server *)
| ReadingResponse (err : string)   (* Error while reading the http response *)
| ParsingJson (err : json_error)   (* Error while parsing the json *)
| Storing (err : string).

(** [getHistory] (lines 551-568). *)
Definition getHistory (net : Net) (base_uri id : string) (st : State)
  : result error (list Image) * State :=
  let (res, st) := http_Get net GetHistory id (base_uri +:+ id +:+ "/history") st in
  match res with
  | Err err => (Err (FromServer err), st)
  | Ok res =>
      match ReadAll (Body res) with
      | Err err => (Err (ReadingResponse err), st)
      | Ok jsonString =>
          match newMultipleImgJson jsonString with
          | Err err => (Err (ParsingJson err), st)
          | Ok history => (Ok history, st)
          end
      end
  end.

(** [getRemoteImage] (lines 570-595). *)
Definition getRemoteImage (net : Net) (base_uri id : string) (st : State)
  : result error (Image * Reader) * State :=
  let (res, st) := http_Get net GetJson id (base_uri +:+ id +:+ "/json") st in
  match res with
  | Err err => (Err (FromServer err), st)
  | Ok res =>
      match ReadAll (Body res) with
      | Err err => (Err (ReadingResponse err), st)
      | Ok jsonString =>
          match newImgJson jsonString with
          | Err err => (Err (ParsingJson err), st)
          | Ok img =>
              let img := set_Id img id in
              let (res, st) := http_Get net GetLayer id (base_uri +:+ id +:+ "/layer") st in
              match res with
              | Err err => (Err (FromServer err), st)
              | Ok res => (Ok (img, Body res), st)
              end
          end
      end
  end.

(** One turn of [for j := range history] (lines 616-625): [Some err] is
    the [return err] that leaves the command. *)
Definition pull_step (d : Disk) (net : Net) (base_uri : string) (j : Image)
    (st : State) : option error * State :=
  if negb (Exists (graph st) (Id j)) then
    match getRemoteImage net base_uri (Id j) st with
    | (Err err, st) => (Some err, st)
    | (Ok (img, layer), st) =>
        let st := log_event st (EvRegister img layer) in
        match Register d (graph st) layer img with
        | Err err => (Some (Storing err), st)
        | Ok g => (None, with_graph st g)
        end
    end
  else (None, st).

(** The loop over the entries in the order the map yields them. *)
Fixpoint pull_loop (d : Disk) (net : Net) (base_uri : string)
    (js : list Image) (st : State) : option error * State :=
  match js with
  | [] => (None, st)
  | j :: js' =>
      match pull_step d net base_uri j st with
      | (Some err, st) => (Some err, st)
      | (None, st) => pull_loop d net base_uri js' st
      end
  end.

(** The order in which [range] yields the entries of a map is not fixed
    by the language: any rearrangement of the entries. *)
Record MapOrder : Type := mkMapOrder {
  range : list Image → list Image;
  range_perm : ∀ l, Permutation (range l) l
}.

(** [CmdPulli] (lines 597-628). *)
Definition CmdPulli (d : Disk) (net : Net) (o : MapOrder) (args : Args)
    (st : State) : option error * State :=
  match args with
  | BadArgs => (None, st)
  | Positional [] =>
      (None, Fprintf st (Usage "pulli" "[OPTIONS] IMAGE" "Pull an image from the registry"))
  | Positional (name :: _) =>
      let base_uri := REGISTRY_ENDPOINT +:+ "/images/" in
      match getHistory net base_uri name st with
      | (Err err, st) => (Some err, st)
      | (Ok history, st) => pull_loop d net base_uri (range o history) st
      end
  end.

(** ** A registry and a disk to run the commands against *)

Definition ends_with (s suffix : string) : bool :=
  String.prefix (String.rev suffix) (String.rev s).

Definition strip_suffix (s suffix : string) : string :=
  String.substring 0 (String.length s - String.length suffix) s.

Definition strip_prefix (s pre : string) : option string :=
  if String.prefix pre s
  then Some (String.substring (String.length pre)
               (String.length s - String.length pre) s)
  else None.

Definition storage_endpoint : string := "http://storage.example/".

Definition plain_response (code : Z) (content : string) : Response :=
  mkResponse code (Err "http: no Location header in response")
    (mkReader content None).

(** The manifest of an image: its metadata followed by that of its
    ancestors, as far as the registry holds them. *)
Fixpoint manifest (store : gmap string string) (fuel : nat) (id : string) : string :=
  match fuel with
  | O => ""
  | S n =>
      match store !! (REGISTRY_ENDPOINT +:+ "/images/" +:+ id +:+ "/json") with
      | None => ""
      | Some meta =>
          meta +:+
          match Unmarshal meta zero_Image with
          | Ok img => if (Parent img =? "")%string then ""
                      else manifest store n (Parent img)
          | Err _ => ""
          end
      end
  end.

(** A registry that keeps what it is sent, by URL: a metadata PUT is
    answered 200, or 204 when metadata and layer are both held; a layer PUT
    is answered 307 with a storage URL; a PUT to a storage URL stores the
    layer and is answered 200; a GET returns what is held, 404 otherwise. *)
Definition registry_step (store : gmap string string) (req : Request)
  : Response * gmap string string :=
  let url := URL req in
  if (Method req =? "PUT")%string then
    match strip_prefix url storage_endpoint with
    | Some target => (plain_response 200 "", <[target := body_bytes (ReqBody req)]> store)
    | None =>
        if ends_with url "/json" then
          match store !! url, store !! (strip_suffix url "/json" +:+ "/layer") with
          | Some _, Some _ => (plain_response 204 "", store)
          | _, _ => (plain_response 200 "", <[url := body_bytes (ReqBody req)]> store)
          end
        else if ends_with url "/layer" then
          (mkResponse 307 (Ok (storage_endpoint +:+ url)) (mkReader "" None), store)
        else (plain_response 404 "", store)
    end
  else if ends_with url "/history" then
    match strip_prefix (strip_suffix url "/history") (REGISTRY_ENDPOINT +:+ "/images/") with
    | Some id => (plain_response 200 (manifest store (S (size store)) id), store)
    | None => (plain_response 404 "", store)
    end
  else
    match store !! url with
    | Some content => (plain_response 200 content, store)
    | None => (plain_response 404 "", store)
    end.

Definition registry : Net :=
  fun past req =>
    Ok (fst (registry_step
               (fold_left (fun store r => snd (registry_step store r)) past ∅) req)).

(** A network that answers the requests, in the order they are made, by
    the given answers, and fails when these are used up. *)
Definition scripted (answers : list (result string Response)) : Net :=
  fun past _ => nth (length past) answers (Err "connection reset by peer").

(** A disk holding the given files and yielding the given archives. *)
Fixpoint lookup_path (l : list (string * string)) (path : string)
  : result string string :=
  match l with
  | [] => Err ("open " +:+ path +:+ ": no such file or directory")
  | (p, content) :: l' =>
      if (p =? path)%string then Ok content else lookup_path l' path
  end.

Definition disk_of (files archives : list (string * string)) : Disk :=
  mkDisk "/var/lib/docker/graph" (lookup_path files) (lookup_path archives)
    (fun _ => false).

Definition empty_state : State := mkState ∅ [] [].

Definition identity_order : MapOrder := mkMapOrder (fun l => l) (fun l => Permutation_refl l).

(** JSON objects written without their quotes doubled. *)
Definition member (k v : string) : string := quoted k +:+ ":" +:+ quoted v.

Definition img_nullable : Image := mkImage "a" "" "nullable" "" [].
Definition json_nullable : string :=
  "{" +:+ member "id" "a" +:+ "," +:+ member "comment" "nullable" +:+ "}".
Definition disk_nullable : Disk :=
  disk_of [("/var/lib/docker/graph/a/json", json_nullable)]
          [("/var/lib/docker/graph/a/layer", "layer-bytes-of-a")].
Definition graph_nullable : Graph := {[ "a" := mkEntry img_nullable "layer-bytes-of-a" ]}.

(** An image made by [CmdImport] (line 412) from an archive whose name has
    null in it: its comment is the text Imported from followed by the
    source. *)
Definition img_imported : Image :=
  mkImage "a" "" "Imported from http://example.com/null.tgz"
    "2013-03-28T12:00:00Z" [].
Definition json_imported : string :=
  "{" +:+ member "id" "a" +:+ ","
  +:+ member "comment" "Imported from http://example.com/null.tgz" +:+ ","
  +:+ member "created" "2013-03-28T12:00:00Z" +:+ "}".
Definition disk_imported : Disk :=
  disk_of [("/var/lib/docker/graph/a/json", json_imported)]
          [("/var/lib/docker/graph/a/layer", "layer-bytes-of-a")].
Definition graph_imported : Graph := {[ "a" := mkEntry img_imported "layer-bytes-of-a" ]}.

(** The three requests of the upload of that image. *)
Definition upload_of_imported : list Event :=
  [EvHttp PutJson "a" (json_request "a" json_imported);
   EvHttp PutLayer "a" (layer_request "a");
   EvHttp PutStorage "a"
     (storage_request (storage_endpoint +:+ URL (layer_request "a"))
        "layer-bytes-of-a" "layer-bytes-of-a")].

(** A chain of three images, C over B over A, of the spec's scenario. *)
Definition img_A : Image := mkImage "A" "" "" "" [].
Definition img_B : Image := mkImage "B" "A" "" "" [].
Definition img_C : Image := mkImage "C" "B" "" "" [].
Definition disk_ABC : Disk :=
  disk_of
    [("/var/lib/docker/graph/A/json", "{" +:+ member "id" "A" +:+ "}");
     ("/var/lib/docker/graph/B/json",
      "{" +:+ member "id" "B" +:+ "," +:+ member "parent" "A" +:+ "}");
     ("/var/lib/docker/graph/C/json",
      "{" +:+ member "id" "C" +:+ "," +:+ member "parent" "B" +:+ "}")]
    [("/var/lib/docker/graph/A/layer", "layer-bytes-of-A");
     ("/var/lib/docker/graph/B/layer", "layer-bytes-of-B");
     ("/var/lib/docker/graph/C/layer", "layer-bytes-of-C")].
Definition graph_ABC : Graph :=
  <["A" := mkEntry img_A "layer-bytes-of-A"]>
    (<["B" := mkEntry img_B "layer-bytes-of-B"]>
       {[ "C" := mkEntry img_C "layer-bytes-of-C" ]}).

(** ** Payloads *)

(** The payload with a null id and a null comment. *)
Definition payload_null_fields : string :=
  "{" +:+ quoted "id" +:+ ": null, " +:+ quoted "parent" +:+ ": " +:+ quoted "abc"
  +:+ ", " +:+ quoted "comment" +:+ ": null}".


Definition stream_two_ids : string :=
  "{" +:+ member "id" "a" +:+ "}" +:+ nl
  +:+ "{" +:+ member "id" "b" +:+ "," +:+ member "parent" "a" +:+ "}" +:+ nl.


(** ** Vocabulary of the statements *)

Definition is_Pushing (m : Msg) : bool :=
  match m with
  | Pushing _ => true
  | _ => false
  end.

Definition phase_of (e : Event) : option Phase :=
  match e with
  | EvHttp ph _ _ => Some ph
  | EvRegister _ _ => None
  end.

(** The number of requests made from a given place. *)
Definition count_phase (ph : Phase) (evs : list Event) : nat :=
  length (filter (λ e, phase_of e = Some ph) evs).

(** Whether the persisted JSON of an image can be read. *)
Definition readable (d : Disk) (img : Image) : bool :=
  is_ok (ReadFile d (path_Join (Root d) (Id img) "json")).

(** The upload of [img], begun after the requests [past], goes through in
    full: the metadata is read and its PUT answered 200, the layer PUT is
    answered 307 with a Location, the archive is built and its PUT to that
    Location answered 200.  [evs] are the three requests. *)
Definition uploaded (d : Disk) (net : Net) (img : Image) (past : list Request)
    (evs : list Event) : Prop :=
  ∃ jsonRaw layerData url r1 r2 r3,
    ReadFile d (path_Join (Root d) (Id img) "json") = Ok jsonRaw
    ∧ Tar d (path_Join (Root d) (Id img) "layer") = Ok layerData
    ∧ evs = [EvHttp PutJson (Id img) (json_request (Id img) jsonRaw);
             EvHttp PutLayer (Id img) (layer_request (Id img));
             EvHttp PutStorage (Id img) (storage_request url layerData layerData)]
    ∧ net past (json_request (Id img) jsonRaw) = Ok r1
    ∧ StatusCode r1 = 200%Z
    ∧ net (past ++ [json_request (Id img) jsonRaw]) (layer_request (Id img)) = Ok r2
    ∧ StatusCode r2 = 307%Z
    ∧ Location r2 = Ok url
    ∧ net (past ++ [json_request (Id img) jsonRaw; layer_request (Id img)])
          (storage_request url layerData layerData) = Ok r3
    ∧ StatusCode r3 = 200%Z.

(** What one run of the handler does, case by case: the requests it makes
    and what it prints after the Pushing line. *)
Inductive push_outcome (d : Disk) (net : Net) (img : Image) (past : list Request)
  : list Event → list Msg → Prop :=
| push_unreadable (err : string) :
    ReadFile d (path_Join (Root d) (Id img) "json") = Err err →
    push_outcome d net img past [] [ErrPath (Id img) err]
| push_json_refused (jsonRaw : string) (m : Msg) :
    ReadFile d (path_Join (Root d) (Id img) "json") = Ok jsonRaw →
    (∀ r, net past (json_request (Id img) jsonRaw) = Ok r → StatusCode r ≠ 200%Z) →
    (∀ r, net past (json_request (Id img) jsonRaw) = Ok r → StatusCode r = 204%Z →
          m = AlreadyOnRepository) →
    is_Pushing m = false →
    push_outcome d net img past
      [EvHttp PutJson (Id img) (json_request (Id img) jsonRaw)] [m]
| push_layer_refused (jsonRaw : string) (r1 : Response) (m : Msg) :
    ReadFile d (path_Join (Root d) (Id img) "json") = Ok jsonRaw →
    net past (json_request (Id img) jsonRaw) = Ok r1 →
    StatusCode r1 = 200%Z →
    is_Pushing m = false →
    push_outcome d net img past
      [EvHttp PutJson (Id img) (json_request (Id img) jsonRaw);
       EvHttp PutLayer (Id img) (layer_request (Id img))] [m]
| push_storage_refused (jsonRaw layerData url : string) (r1 r2 : Response) (m : Msg) :
    ReadFile d (path_Join (Root d) (Id img) "json") = Ok jsonRaw →
    Tar d (path_Join (Root d) (Id img) "layer") = Ok layerData →
    net past (json_request (Id img) jsonRaw) = Ok r1 →
    StatusCode r1 = 200%Z →
    net (past ++ [json_request (Id img) jsonRaw]) (layer_request (Id img)) = Ok r2 →
    StatusCode r2 = 307%Z →
    Location r2 = Ok url →
    is_Pushing m = false →
    push_outcome d net img past
      [EvHttp PutJson (Id img) (json_request (Id img) jsonRaw);
       EvHttp PutLayer (Id img) (layer_request (Id img));
       EvHttp PutStorage (Id img) (storage_request url layerData layerData)] [m]
| push_uploaded (evs : list Event) :
    uploaded d net img past evs →
    push_outcome d net img past evs [].

(** The handler over a chain: the outcomes of its images, one after the
    other. *)
Inductive chain_outcome (d : Disk) (net : Net)
  : list Request → list Image → list Event → list Msg → Prop :=
| chain_done (past : list Request) : chain_outcome d net past [] [] []
| chain_next (past : list Request) (img : Image) (chain : list Image)
    (evs evs' : list Event) (msgs msgs' : list Msg) :
    push_outcome d net img past evs msgs →
    chain_outcome d net (past ++ requests evs) chain evs' msgs' →
    chain_outcome d net past (img :: chain)
      (evs ++ evs') (Pushing (Id img) :: msgs ++ msgs').



(** A network that gives every request the same status, with no body. *)
Definition answering (code : Z) : Net := fun _ _ => Ok (plain_response code "").

(** What [CmdPulli] asks the registry under. *)
Definition base_uri : string := REGISTRY_ENDPOINT +:+ "/images/".

(** The events of a pull over a graph that was [g0] when the pull began:
    the manifest is asked for, and metadata and layer are asked for, and
    an image registered, only for an id that [g0] does not have. *)
Definition pull_event (base : string) (g0 : Graph) (e : Event) : Prop :=
  match e with
  | EvHttp GetHistory id req => req = NewRequest "GET" (base +:+ id +:+ "/history") NoBody
  | EvHttp GetJson id req =>
      Exists g0 id = false ∧ req = NewRequest "GET" (base +:+ id +:+ "/json") NoBody
  | EvHttp GetLayer id req =>
      Exists g0 id = false ∧ req = NewRequest "GET" (base +:+ id +:+ "/layer") NoBody
  | EvHttp _ _ _ => False
  | EvRegister img _ => Exists g0 (Id img) = false
  end.

(** Whether an event is a request for the metadata or the layer of [id],
    or the registration of an image with that id. *)
Definition fetches (base id : string) (e : Event) : bool :=
  match e with
  | EvHttp _ _ req =>
      (URL req =? base +:+ id +:+ "/json")%string
      || (URL req =? base +:+ id +:+ "/layer")%string
  | EvRegister img _ => (Id img =? id)%string
  end.


(** The events one turn of the loop makes for the entry [id]. *)
Definition step_event (base id : string) (e : Event) : Prop :=
  e = EvHttp GetJson id (NewRequest "GET" (base +:+ id +:+ "/json") NoBody)
  ∨ e = EvHttp GetLayer id (NewRequest "GET" (base +:+ id +:+ "/layer") NoBody)
  ∨ ∃ img layer, e = EvRegister img layer ∧ Id img = id.

Definition ok_response (content : string) : result string Response :=
  Ok (plain_response 200 content).


Definition graph_with_a : Graph :=
  {[ "a" := mkEntry (mkImage "a" "" "" "" []) "layer-bytes-of-a" ]}.

(** A registry session: the manifest of b over a, then metadata and layer
    of b. *)
Definition serves_b : Net :=
  scripted [ok_response stream_two_ids;
            ok_response ("{" +:+ member "parent" "a" +:+ "}");
            ok_response "layer-bytes-of-b"].

(** The last byte of a string. *)
Fixpoint last_byte (s : string) : option ascii :=
  match s with
  | "" => None
  | String c "" => Some c
  | String _ s' => last_byte s'
  end.


(** ** Vocabulary of further statements *)

(** Whether the four bytes null stand somewhere in [s]. *)
Fixpoint has_null (s : string) : bool :=
  match s with
  | "" => false
  | String _ s' => String.prefix "null" s || has_null s'
  end.

Fixpoint no_dquote (s : string) : bool :=
  match s with
  | "" => true
  | String c s' => negb (c =? dquote)%char && no_dquote s'
  end.

(** Whether [s] is made of JSON white space only. *)
Fixpoint all_space (s : string) : bool :=
  match s with
  | "" => true
  | String c s' => is_json_space c && all_space s'
  end.




(** The two requests of [getRemoteImage]. *)
Definition metadata_get (base id : string) : Request :=
  NewRequest "GET" (base +:+ id +:+ "/json") NoBody.

Definition layer_get (base id : string) : Request :=
  NewRequest "GET" (base +:+ id +:+ "/layer") NoBody.

(** A request of a push for an image of the chain: a PUT. *)
Definition push_event (d : Disk) (chain : list Image) (e : Event) : Prop :=
  match e with
  | EvHttp ph id req =>
      id ∈ map Id chain
      ∧ Method req = "PUT"
      ∧ match ph with
        | PutJson =>
            ∃ jsonRaw, ReadFile d (path_Join (Root d) id "json") = Ok jsonRaw
                       ∧ req = json_request id jsonRaw
        | PutLayer => req = layer_request id
        | PutStorage => True
        | _ => False
        end
  | EvRegister _ _ => False
  end.

(** * The other commands of the file *)

(** What a command writes to its [stdout], one element for each write. *)
Record Cli (R : Type) : Type := mkCli {
  runtime : R;
  output : list string
}.
Arguments mkCli {R} _ _.
Arguments runtime {R} _.
Arguments output {R} _.

(** [fmt.Fprintln(stdout, s)]. *)
Definition Fprintln {R : Type} (w : Cli R) (s : string) : Cli R :=
  mkCli (runtime w) (output w ++ [s +:+ nl]).

(** [cmd.Usage()] of a flag set made by [rcli.Subcmd], with no flag
    defined. *)
Definition cmd_Usage {R : Type} (w : Cli R) (name signature description : string)
  : Cli R :=
  mkCli (runtime w) (output w ++ [render (Usage name signature description)]).


(** ** Containers *)

(** The runtime and its containers are outside this file.  [R] is the
    runtime with all its containers; [C] is a [*Container], a reference into
    it: the fields of a container are read through the runtime, and what is
    done to a container changes the runtime.  A nil container and a nil
    error are [None]. *)
Class Runtime (R C : Type) : Type := {
  runtime_Get : R → string → option C;
  container_Id : R → C → string;
  container_Stop : C → R → option string * R;
  container_Restart : C → R → option string * R;
  container_Start : C → R → option string * R;
  container_EnsureMounted : C → R → option string * R;
  container_Kill : C → R → option string * R;
  runtime_Destroy : C → R → option string * R
}.

Section Containers.
Context {R C : Type} `{Runtime R C}.

(** The loop of [CmdStop], [CmdRestart], [CmdStart] and [CmdMount] (lines
    172-182, 194-204, 216-226, 238-248), [op] being what is done to each
    container. *)
Fixpoint each_container (op : C → R → option string * R) (names : list string)
    (w : Cli R) : option string * Cli R :=
  match names with
  | [] => (None, w)
  | name :: names =>
      match runtime_Get (runtime w) name with
      | Some container =>
          match op container (runtime w) with
          | (Some err, rt) => (Some err, mkCli rt (output w))
          | (None, rt) =>
              each_container op names
                (Fprintln (mkCli rt (output w)) (container_Id rt container))
          end
      | None => (Some ("No such container: " +:+ name), w)
      end
  end.

Definition container_cmd (name signature description : string)
    (op : C → R → option string * R) (args : Args) (w : Cli R)
  : option string * Cli R :=
  match args with
  | BadArgs => (None, w)
  | Positional [] => (None, cmd_Usage w name signature description)
  | Positional names => each_container op names w
  end.

(** [CmdStop] (lines 163-183). *)
Definition CmdStop : Args → Cli R → option string * Cli R :=
  container_cmd "stop" "[OPTIONS] NAME" "Stop a running container" container_Stop.

(** [CmdRestart] (lines 185-205). *)
Definition CmdRestart : Args → Cli R → option string * Cli R :=
  container_cmd "restart" "[OPTIONS] NAME" "Restart a running container"
    container_Restart.

(** [CmdStart] (lines 207-227). *)
Definition CmdStart : Args → Cli R → option string * Cli R :=
  container_cmd "start" "[OPTIONS] NAME" "Start a stopped container" container_Start.

(** [CmdMount] (lines 229-249). *)
Definition CmdMount : Args → Cli R → option string * Cli R :=
  container_cmd "umount" "[OPTIONS] NAME" "mount a container's filesystem (debug only)"
    container_EnsureMounted.




End Containers.

(** A runtime for the examples: the containers by name, each running or
    not; a container is referred to by its name, and its id is the name in
    brackets.  Stopping or killing a container that does not run fails, and
    so does starting one that runs. *)
Definition switch (from : bool) (complaint : string) (c : string)
    (rt : gmap string bool) : option string * gmap string bool :=
  match rt !! c with
  | Some running =>
      if bool_decide (running = from) then (None, <[c := negb from]> rt)
      else (Some (complaint +:+ c), rt)
  | None => (Some ("gone: " +:+ c), rt)
  end.

Global Instance toy_runtime : Runtime (gmap string bool) string := {
  runtime_Get rt name := if rt !! name is Some _ then Some name else None;
  container_Id rt c := "[" +:+ c +:+ "]";
  container_Stop := switch true "not running: ";
  container_Restart c rt := (None, rt);
  container_Start := switch false "already running: ";
  container_EnsureMounted c rt := (None, rt);
  container_Kill := switch true "not running: ";
  runtime_Destroy c rt :=
    if rt !! c is Some true then (Some ("still running: " +:+ c), rt)
    else (None, delete c rt)
}.

(** ** Images *)

Section Rmi.
(** [Graph.Delete] is outside this file: it answers with an error or nil,
    and leaves the graph as it then is. *)
Context (Delete : string → Graph → option string * Graph).

(** The loop of [CmdRmi] (lines 318-322). *)
Fixpoint rmi_loop (names : list string) (g : Graph) : option string * Graph :=
  match names with
  | [] => (None, g)
  | name :: names =>
      match Delete name g with
      | (Some err, g) => (Some err, g)
      | (None, g) => rmi_loop names g
      end
  end.

(** [CmdRmi] (lines 312-324). *)
Definition CmdRmi (args : Args) (w : Cli Graph) : option string * Cli Graph :=
  match args with
  | BadArgs | Positional [] =>
      (None, cmd_Usage w "rmimage" "[OPTIONS] IMAGE" "Remove an image")
  | Positional names =>
      let (err, g) := rmi_loop names (runtime w) in (err, mkCli g (output w))
  end.

End Rmi.

(** A [Delete] for the examples: it fails on an id the graph has not. *)
Definition delete_known (id : string) (g : Graph) : option string * Graph :=
  match g !! id with
  | Some _ => (None, delete id g)
  | None => (Some ("No such image: " +:+ id), g)
  end.



(** ** Ports *)

(** [strconv.Atoi] where int has 64 bits ([NewServer] refuses any other
    platform): an optional sign, then one decimal digit or more and nothing
    else, the value within the range of int. *)
Definition digit_value (c : ascii) : option Z :=
  let n := Z.of_N (N_of_ascii c) in
  if ((48 <=? n) && (n <=? 57))%Z then Some (n - 48)%Z else None.

Fixpoint digits_value (acc : Z) (s : string) : option Z :=
  match s with
  | "" => Some acc
  | String c s' =>
      match digit_value c with
      | Some v => digits_value (10 * acc + v) s'
      | None => None
      end
  end.

Definition Atoi (s : string) : option Z :=
  match s with
  | "" => None
  | String c s' =>
      let neg := (c =? "-")%char in
      let body := if (c =? "-")%char || (c =? "+")%char then s' else s in
      match body with
      | "" => None
      | _ =>
          match digits_value 0 body with
          | Some n =>
              let v := if neg then (- n)%Z else n in
              if ((- 2 ^ 63 <=? v) && (v <? 2 ^ 63))%Z then Some v else None
          | None => None
          end
      end
  end.

(** [ports.Set] (lines 911-918), on the slice [p]. *)
Definition ports_Set (value : string) (p : list Z) : option string * list Z :=
  match Atoi value with
  | None => (Some ("Invalid port: " +:+ value), p)
  | Some port => (None, p ++ [port])
  end.

(** A character that is no decimal digit somewhere after the first
    character of a string. *)
Fixpoint has_non_digit (s : string) : bool :=
  match s with
  | "" => false
  | String c s' => (if digit_value c is Some _ then false else true) || has_non_digit s'
  end.

Definition tail_has_non_digit (s : string) : bool :=
  match s with
  | "" => false
  | String _ s' => has_non_digit s'
  end.

(** ** The listing of images *)

(** What [CmdImages] does with its output: a write to [stdout] itself, a
    write to the tabwriter [w] around it, the flush of [w], and
    [cmd.Usage()]. *)
Inductive Write : Type :=
| Direct (s : string)
| Tab (s : string)
| Flush
| PrintUsage.

(** [runtime.repositories.Repositories]: the ids by repository and tag. *)
Abbreviation Repositories := (gmap string (gmap string string)).

(** The orders in which the three [range] loops of [CmdImages] go over
    their maps: Go leaves them open, and the tags of each repository have an
    order of their own. *)
Record Ranges : Type := mkRanges {
  range_repositories : Repositories → list (string * gmap string string);
  range_tags : string → gmap string string → list (string * string);
  range_images : gmap string Image → list (string * Image);
  range_repositories_perm : ∀ m, range_repositories m ≡ₚ map_to_list m;
  range_tags_perm : ∀ name m, range_tags name m ≡ₚ map_to_list m;
  range_images_perm : ∀ m, range_images m ≡ₚ map_to_list m
}.

(** The state of the loops: [allImages], what has been written, and the
    number of rows shown so far. *)
Record Listing : Type := mkListing {
  allImages : gmap string Image;
  written : list Write;
  shown : nat
}.

Definition tab : string := String "009" "".

(** Lines 664-677 and 686-699: the row of an image.  [ago] is
    [HumanDuration(time.Now().Sub(image.Created))] as it comes out when the
    row is written. *)
Definition write_row (quiet : bool) (ago : string) (name tag id : string)
    (image : Image) : list Write :=
  if negb quiet then
    imap (λ idx field, if idx is O then Tab field else Tab (tab +:+ field))
      [name; tag; id; ago +:+ " ago"; Parent image]
    ++ [Tab nl]
  else [Direct (Id image +:+ nl)].

(** Line 647: the header of the table. *)
Definition images_header : string :=
  "REPOSITORY" +:+ tab +:+ "TAG" +:+ tab +:+ "ID" +:+ tab +:+ "CREATED" +:+ tab
  +:+ "PARENT" +:+ nl.

Section Images.
(** [age k image] is the age of [image] in words at the time the row
    number [k] of the listing is written. *)
Context (o : Ranges) (age : nat → Image → string) (g : Graph) (quiet : bool).

Definition show (name tag id : string) (image : Image) (l : Listing) : Listing :=
  mkListing (allImages l)
    (written l ++ write_row quiet (age (shown l) image) name tag id image)
    (S (shown l)).

(** Lines 657-679: the tags of one repository. *)
Definition tags_loop (name : string) (tags : list (string * string)) (l : Listing)
  : Listing :=
  fold_left (λ l '(tag, id),
      match Get g id with
      | Err _ => l
      | Ok image =>
          show name tag id image
            (mkListing (delete id (allImages l)) (written l) (shown l))
      end) tags l.

(** Lines 653-680. *)
Definition repositories_loop (nameFilter : string)
    (repositories : list (string * gmap string string)) (l : Listing) : Listing :=
  fold_left (λ l '(name, repository),
      if negb (nameFilter =? "")%string && negb (name =? nameFilter)%string then l
      else tags_loop name (range_tags o name repository) l) repositories l.

(** Lines 683-701: the images no tag has led to. *)
Definition untagged_loop (images : list (string * Image)) (l : Listing) : Listing :=
  fold_left (λ l '(id, image), show "" "" id image l) images l.

(** [CmdImages] (lines 630-711).  [all] is what [graph.Map()] answers,
    [repositories] the repositories of the runtime, [quiet] the flag -q. *)
Definition CmdImages (all : result string (gmap string Image))
    (repositories : Repositories) (args : Args) : option string * list Write :=
  match args with
  | BadArgs => (None, [])
  | Positional args =>
      if (1 <? length args)%nat then (None, [PrintUsage])
      else
        let nameFilter := if args is [arg] then arg else "" in
        let out := if negb quiet then [Tab images_header] else [] in
        match all with
        | Err err => (Some err, out)
        | Ok images =>
            let l := repositories_loop nameFilter (range_repositories o repositories)
                       (mkListing images out 0) in
            let l := if (nameFilter =? "")%string
                     then untagged_loop (range_images o (allImages l)) l
                     else l in
            (None, written l ++ (if negb quiet then [Flush] else []))
        end
  end.

End Images.

(** A row of the listing. *)
Record Row : Type := mkRow {
  row_name : string;
  row_tag : string;
  row_id : string;
  row_image : Image
}.

(** The writes of the rows [rows], the first of them being row number
    [k]. *)
Fixpoint write_rows (age : nat → Image → string) (quiet : bool) (k : nat)
    (rows : list Row) : list Write :=
  match rows with
  | [] => []
  | r :: rows =>
      write_row quiet (age k (row_image r)) (row_name r) (row_tag r) (row_id r)
        (row_image r)
      ++ write_rows age quiet (S k) rows
  end.

(** The rows of the tags [tags] of the repository [name]: one for each
    tag whose image the graph has. *)
Definition tagged_rows (g : Graph) (name : string) (tags : list (string * string))
  : list Row :=
  omap (λ '(tag, id), match g !! id with
                      | Some e => Some (mkRow name tag id (image e))
                      | None => None
                      end) tags.

(** The repositories a name filter lets through. *)
Definition selected (nameFilter : string) (name : string) : bool :=
  (nameFilter =? "")%string || (name =? nameFilter)%string.

(** The rows of all the tags of the selected repositories. *)
Definition all_tagged_rows (g : Graph) (nameFilter : string)
    (repositories : Repositories) : list Row :=
  '(name, repository) ← map_to_list repositories;
  if selected nameFilter name then tagged_rows g name (map_to_list repository) else [].

(** The rows of the images of [all] that none of [rows] shows, and only
    when there is no name filter. *)
Definition untagged_rows (nameFilter : string) (all : gmap string Image)
    (rows : list Row) : list Row :=
  if (nameFilter =? "")%string
  then (λ '(id, image), mkRow "" "" id image)
         <$> filter (λ '(id, _), id ∉ row_id <$> rows) (map_to_list all)
  else [].

(** A map of images after the [delete] of each of [ids]. *)
Definition delete_all (ids : list string) (all : gmap string Image)
  : gmap string Image :=
  fold_left (λ m id, delete id m) ids all.

(** What [CmdImages] writes around the rows [body]: the header before
    them and the flush after them, unless it is quiet. *)
Definition listing (quiet : bool) (body : list Write) : list Write :=
  (if negb quiet then [Tab images_header] else [])
  ++ body ++ (if negb quiet then [Flush] else []).

(** Orders for the examples: the keys in the order of [map_to_list]. *)
Definition canonical_ranges : Ranges :=
  mkRanges map_to_list (λ _, map_to_list) map_to_list
    (λ m, reflexivity _) (λ _ m, reflexivity _) (λ m, reflexivity _).

(** * Properties *)

(** ** Strings *)

Lemma append_nil_l (s : string) : "" +:+ s = s.
Proof. reflexivity. Qed.

Lemma append_cons (c : ascii) (a s : string) :
  String c a +:+ s = String c (a +:+ s).
Proof. reflexivity. Qed.

Lemma append_assoc (a b c : string) : (a +:+ b) +:+ c = a +:+ b +:+ c.
Proof.
  induction a as [|x a IH]; [reflexivity|].
  rewrite !append_cons. by rewrite IH.
Qed.

Lemma length_append (a b : string) :
  String.length (a +:+ b) = String.length a + String.length b.
Proof.
  induction a as [|x a IH]; [reflexivity|].
  rewrite append_cons. simpl. by rewrite IH.
Qed.

(** Right cancellation of the append. *)
Lemma append_inv_tail (a b s : string) : a +:+ s = b +:+ s → a = b.
Proof.
  revert b. induction a as [|x a IH]; intros [|y b] H.
  - reflexivity.
  - apply (f_equal String.length) in H.
    rewrite append_nil_l, append_cons in H. simpl in H.
    rewrite length_append in H. lia.
  - apply (f_equal String.length) in H.
    rewrite append_nil_l, append_cons in H. simpl in H.
    rewrite length_append in H. lia.
  - rewrite !append_cons in H. injection H as -> H. f_equal. by apply IH.
Qed.

Lemma last_byte_append (a : string) (c : ascii) (s : string) :
  last_byte (a +:+ String c s) = last_byte (String c s).
Proof.
  induction a as [|x a IH]; [reflexivity|].
  rewrite append_cons.
  change (last_byte (String x (a +:+ String c s)))
    with (match a +:+ String c s with
          | "" => Some x
          | _ => last_byte (a +:+ String c s)
          end).
  destruct (a +:+ String c s) eqn:E; [|exact IH].
  destruct a; discriminate.
Qed.

(** ** strings.Replace of null *)

Lemma prefix_cons (c : ascii) (s : string) (d : ascii) (t : string) :
  String.prefix (String c s) (String d t)
  = if ascii_dec c d then String.prefix s t else false.
Proof. reflexivity. Qed.

Lemma prefix_nil_r (c : ascii) (s : string) : String.prefix (String c s) "" = false.
Proof. reflexivity. Qed.

Lemma prefix_nil_l (s : string) : String.prefix "" s = true.
Proof. by destruct s. Qed.

Ltac prefix_head :=
  rewrite ?append_cons, ?append_nil_l, ?prefix_cons, ?prefix_nil_r;
  match goal with
  | |- context [ascii_dec ?x ?y] =>
      destruct (ascii_dec x y) as [<-|]; [|try reflexivity; try discriminate]
  | _ => idtac
  end.

Lemma prefix_null_inside (c : ascii) (a b : string) :
  String.prefix "null" (String c a +:+ "null" +:+ b) = String.prefix "null" (String c a).
Proof.
  prefix_head.
  destruct a as [|c2 a]; [by prefix_head|]. prefix_head.
  destruct a as [|c3 a]; [by prefix_head|]. prefix_head.
  destruct a as [|c4 a]; [by prefix_head|]. prefix_head.
  by rewrite !prefix_nil_l.
Qed.

Lemma prefix_null_length (s : string) :
  String.prefix "null" s = true → 4 ≤ String.length s.
Proof.
  destruct s as [|c1 [|c2 [|c3 [|c4 s]]]]; try discriminate;
    repeat prefix_head; simpl; intros; try discriminate; lia.
Qed.

Lemma replace_go_inside (new b a : string) (skip : nat) :
  skip ≤ String.length a →
  replace_go "null" new skip (a +:+ "null" +:+ b)
  = replace_go "null" new skip a +:+ replace_go "null" new 0 ("null" +:+ b).
Proof.
  revert skip. induction a as [|c a IH]; intros skip Hskip.
  - simpl in Hskip. assert (skip = 0) as -> by lia. reflexivity.
  - destruct skip as [|k].
    + rewrite append_cons.
      change (replace_go "null" new 0 (String c (a +:+ "null" +:+ b)))
        with (if String.prefix "null" (String c (a +:+ "null" +:+ b))
              then new +:+ replace_go "null" new 3 (a +:+ "null" +:+ b)
              else String c (replace_go "null" new 0 (a +:+ "null" +:+ b))).
      change (replace_go "null" new 0 (String c a))
        with (if String.prefix "null" (String c a)
              then new +:+ replace_go "null" new 3 a
              else String c (replace_go "null" new 0 a)).
      rewrite <- append_cons, prefix_null_inside.
      destruct (String.prefix "null" (String c a)) eqn:E.
      * apply prefix_null_length in E. simpl in E.
        rewrite IH by lia. by rewrite append_assoc.
      * rewrite IH by lia. reflexivity.
    + simpl in Hskip. rewrite append_cons.
      change (replace_go "null" new (S k) (String c (a +:+ "null" +:+ b)))
        with (replace_go "null" new k (a +:+ "null" +:+ b)).
      change (replace_go "null" new (S k) (String c a))
        with (replace_go "null" new k a).
      apply IH. lia.
Qed.

Lemma replace_go_null_head (new b : string) :
  replace_go "null" new 0 ("null" +:+ b) = new +:+ replace_go "null" new 0 b.
Proof. destruct b; reflexivity. Qed.

(** Every occurrence of null is replaced, wherever it stands. *)
Lemma purify_null (a b : string) :
  purify (a +:+ "null" +:+ b) = purify a +:+ empty_string_literal +:+ purify b.
Proof.
  unfold purify, Replace.
  rewrite replace_go_inside by lia. by rewrite replace_go_null_head.
Qed.

(** ** The metadata decoders *)

Lemma newImgJson_Unmarshal (src : string) :
  newImgJson src = Unmarshal (purify src) zero_Image.
Proof. unfold newImgJson. by destruct (Unmarshal (purify src) zero_Image). Qed.

(** C6: the payload with a null id and a null comment decodes, without
    error, to the image with id and comment empty and parent abc; in
    general the decoder runs [json.Unmarshal] on the payload in which every
    null, wherever it stands, has become the empty string literal. *)
Theorem newImgJson_null_tolerant :
  newImgJson payload_null_fields = Ok (mkImage "" "abc" "" "" [])
  ∧ (∀ src, newImgJson src = Unmarshal (purify src) zero_Image)
  ∧ (∀ a b, newImgJson (a +:+ "null" +:+ b)
            = Unmarshal (purify a +:+ quoted "" +:+ purify b) zero_Image).
Proof.
  split; [by vm_compute|]. split; [exact newImgJson_Unmarshal|].
  intros a b. by rewrite newImgJson_Unmarshal, purify_null.
Qed.

(** The loop of [newMultipleImgJson] in terms of [dec.Decode]. *)
Lemma decode_loop_Decode (dec : Decoder) (ret : list Image) :
  decode_loop (pending dec) (clean_end dec) ret
  = match Decode dec with
    | DecEOF => Ok ret
    | DecErr err => Err err
    | DecOk m dec' => decode_loop (pending dec') (clean_end dec') (ret ++ [m])
    end.
Proof.
  destruct dec as [[|v vs] clean]; unfold Decode; simpl.
  - by destruct clean.
  - by destruct (decode_Image v zero_Image).
Qed.









(** ** Push *)

Section Push.
Context (d : Disk) (net : Net).

Lemma requests_app (l l' : list Event) : requests (l ++ l') = requests l ++ requests l'.
Proof. unfold requests. apply omap_app. Qed.

Lemma requests_snoc (l : list Event) (ph : Phase) (id : string) (req : Request) :
  requests (l ++ [EvHttp ph id req]) = requests l ++ [req].
Proof. by rewrite requests_app. Qed.

Lemma state_eq (g : Graph) (tr tr' : list Event) (out out' : list Msg) :
  tr = tr' → out = out' → mkState g tr out = mkState g tr' out'.
Proof. by intros -> ->. Qed.

Ltac state_done :=
  apply state_eq; rewrite <- ?app_assoc; try rewrite app_nil_r; reflexivity.

(** One run of the handler leaves the graph alone, extends the trace by
    its requests and standard output by the Pushing line and what
    follows. *)
Lemma push_image_outcome (img : Image) (st : State) :
  ∃ evs msgs,
    push_image d net img st
    = mkState (graph st) (trace st ++ evs) (stdout st ++ Pushing (Id img) :: msgs)
    ∧ push_outcome d net img (requests (trace st)) evs msgs.
Proof.
  unfold push_image, Do, Fprintf, log_event; simpl.
  destruct (ReadFile d (path_Join (Root d) (Id img) "json")) as [jsonRaw|err] eqn:Hread.
  2:{ eexists [], _. split; [state_done|]. by constructor. }
  rewrite !requests_snoc, <- ?app_assoc. simpl.
  destruct (net (requests (trace st)) (json_request (Id img) jsonRaw))
    as [r1|err] eqn:H1; simpl.
  2:{ eexists [_], _. split; [state_done|].
      apply push_json_refused; [done|congruence|congruence|done]. }
  destruct (StatusCode r1 =? 200)%Z eqn:E1; simpl.
  2:{ apply Z.eqb_neq in E1.
      destruct (StatusCode r1 =? 204)%Z eqn:E204;
        [|destruct (StatusCode r1 =? 400)%Z eqn:E400];
        (eexists [_], _; split; [state_done|]);
        (apply push_json_refused; [done| |  |done]);
        intros r' Hr'; assert (r' = r1) as -> by congruence; try done;
        apply Z.eqb_neq in E204; done. }
  apply Z.eqb_eq in E1.
  destruct (net (requests (trace st) ++ [json_request (Id img) jsonRaw])
              (layer_request (Id img))) as [r2|err] eqn:H2; simpl.
  2:{ eexists [_; _], _. split; [state_done|]. by eapply push_layer_refused. }
  destruct (StatusCode r2 =? 307)%Z eqn:E2; simpl.
  2:{ eexists [_; _], _. split; [state_done|]. by eapply push_layer_refused. }
  apply Z.eqb_eq in E2.
  destruct (Location r2) as [url|err] eqn:Hloc.
  2:{ eexists [_; _], _. split; [state_done|]. by eapply push_layer_refused. }
  destruct (Tar d (path_Join (Root d) (Id img) "layer")) as [layerData|err] eqn:Htar.
  2:{ eexists [_; _], _. split; [state_done|]. by eapply push_layer_refused. }
  destruct (net (requests (trace st) ++ [json_request (Id img) jsonRaw; layer_request (Id img)])
              (storage_request url layerData layerData)) as [r3|err] eqn:H3; simpl.
  2:{ eexists [_; _; _], _. split; [state_done|]. by eapply push_storage_refused. }
  destruct (StatusCode r3 =? 200)%Z eqn:E3; simpl.
  2:{ eexists [_; _; _], _. split; [state_done|]. by eapply push_storage_refused. }
  apply Z.eqb_eq in E3.
  eexists [_; _; _], []. split; [state_done|].
  apply push_uploaded. by exists jsonRaw, layerData, url, r1, r2, r3.
Qed.

Lemma push_chain_outcome (chain : list Image) (st : State) :
  ∃ evs msgs,
    push_chain d net chain st
    = mkState (graph st) (trace st ++ evs) (stdout st ++ msgs)
    ∧ chain_outcome d net (requests (trace st)) chain evs msgs.
Proof.
  revert st. induction chain as [|img chain IH]; intros st.
  - exists [], []. split; [|constructor].
    destruct st; simpl. by rewrite !app_nil_r.
  - destruct (push_image_outcome img st) as (evs & msgs & Hst & Hout).
    destruct (IH (push_image d net img st)) as (evs' & msgs' & Hst' & Hout').
    exists (evs ++ evs'), (Pushing (Id img) :: msgs ++ msgs'). split.
    + change (push_chain d net (img :: chain) st)
        with (push_chain d net chain (push_image d net img st)).
      rewrite Hst'. rewrite Hst. simpl. state_done.
    + constructor; [done|].
      rewrite Hst in Hout'. simpl in Hout'. by rewrite requests_app in Hout'.
Qed.

Lemma push_outcome_quiet (img : Image) (past : list Request)
    (evs : list Event) (msgs : list Msg) :
  push_outcome d net img past evs msgs →
  (msgs = [] ∧ uploaded d net img past evs) ∨ (∃ m, is_Pushing m = false ∧ msgs = [m]).
Proof.
  destruct 1; [right; eexists; (split; [|reflexivity]); done..|by left].
Qed.

Lemma push_outcome_no_pushing (img : Image)
    (past : list Request) (evs : list Event) (msgs : list Msg) :
  push_outcome d net img past evs msgs → filter (λ m, is_Pushing m = true) msgs = [].
Proof.
  intros H. destruct (push_outcome_quiet _ _ _ _ H) as [[-> _]|(m & Hm & ->)]; [done|].
  rewrite filter_cons_False; [done|]. by rewrite Hm.
Qed.

Lemma chain_outcome_pushing (past : list Request)
    (chain : list Image) (evs : list Event) (msgs : list Msg) :
  chain_outcome d net past chain evs msgs →
  filter (λ m, is_Pushing m = true) msgs = map (λ i, Pushing (Id i)) chain.
Proof.
  induction 1 as [|past img chain evs evs' msgs msgs' Hout _ IH]; [done|].
  rewrite filter_cons_True by done. simpl. f_equal.
  by rewrite filter_app, (push_outcome_no_pushing _ _ _ _ Hout), IH.
Qed.

Lemma count_phase_app (ph : Phase) (l l' : list Event) :
  count_phase ph (l ++ l') = count_phase ph l + count_phase ph l'.
Proof. unfold count_phase. by rewrite filter_app, length_app. Qed.

Lemma push_outcome_counts (img : Image) (past : list Request)
    (evs : list Event) (msgs : list Msg) :
  push_outcome d net img past evs msgs →
  count_phase PutJson evs = (if readable d img then 1 else 0)
  ∧ count_phase PutLayer evs ≤ count_phase PutJson evs
  ∧ count_phase PutStorage evs ≤ count_phase PutLayer evs.
Proof.
  unfold readable.
  destruct 1 as [err Hr|jsonRaw m Hr|jsonRaw r1 m Hr|jsonRaw ? ? ? ? m Hr|evs Hup].
  5:{ destruct Hup as (jsonRaw & layerData & url & r1 & r2 & r3 & Hr & _ & -> & _).
      rewrite Hr. vm_compute. lia. }
  all: rewrite Hr; vm_compute; lia.
Qed.

Lemma chain_outcome_counts (past : list Request)
    (chain : list Image) (evs : list Event) (msgs : list Msg) :
  chain_outcome d net past chain evs msgs →
  count_phase PutJson evs = length (filter (λ i, readable d i = true) chain)
  ∧ count_phase PutLayer evs ≤ count_phase PutJson evs
  ∧ count_phase PutStorage evs ≤ count_phase PutLayer evs.
Proof.
  induction 1 as [|past img chain evs evs' msgs msgs' Hout _ IH]; [by vm_compute|].
  apply push_outcome_counts in Hout as (H1 & H2 & H3).
  destruct IH as (I1 & I2 & I3). rewrite !count_phase_app, H1, I1.
  split; [|lia].
  destruct (readable d img) eqn:E.
  - by rewrite filter_cons_True.
  - rewrite filter_cons_False; [done|]. by rewrite E.
Qed.




Lemma CmdPush_returns_nil (args : Args) (st : State) :
  fst (CmdPush d net args st) = None.
Proof.
  destruct args as [|[|name rest]]; simpl; [done..|].
  by destruct (Get (graph st) name).
Qed.

(** C1: [CmdPush] returns nil whatever happens; over a chain the handler
    is run on every image, leaf to root, whatever became of the images
    before it; and an image whose upload does not go through in full
    leaves a line of its own on standard output after its Pushing line. *)
Theorem push_continues_past_failures :
  (∀ args st, fst (CmdPush d net args st) = None)
  ∧ (∀ name rest st,
       match Get (graph st) name with
       | Ok img => CmdPush d net (Positional (name :: rest)) st
                   = (None, push_chain d net (History (graph st) img) st)
       | Err _ => CmdPush d net (Positional (name :: rest)) st = (None, st)
       end)
  ∧ (∀ chain st, ∃ msgs,
       stdout (push_chain d net chain st) = stdout st ++ msgs
       ∧ filter (λ m, is_Pushing m = true) msgs = map (λ i, Pushing (Id i)) chain)
  ∧ (∀ img st, ∃ evs,
       trace (push_image d net img st) = trace st ++ evs
       ∧ ((stdout (push_image d net img st) = stdout st ++ [Pushing (Id img)]
           ∧ uploaded d net img (requests (trace st)) evs)
          ∨ ∃ m, is_Pushing m = false
                 ∧ stdout (push_image d net img st)
                   = stdout st ++ [Pushing (Id img); m])).
Proof.
  split; [|split; [|split]].
  - intros args st. apply CmdPush_returns_nil.
  - intros name rest st. simpl. by destruct (Get (graph st) name).
  - intros chain st.
    destruct (push_chain_outcome chain st) as (evs & msgs & -> & Hout).
    exists msgs. split; [done|]. by eapply chain_outcome_pushing.
  - intros img st.
    destruct (push_image_outcome img st) as (evs & msgs & -> & Hout).
    exists evs. split; [done|]. simpl.
    destruct (push_outcome_quiet _ _ _ _ Hout) as [[-> Hup]|(m & Hm & ->)].
    + by left.
    + right. by exists m.
Qed.

(** C3, as the code has it: over a chain of N images push makes one
    metadata PUT for each image whose persisted JSON can be read (so at
    most N, and N when all can), no more layer PUTs than metadata PUTs and
    no more storage PUTs than layer PUTs; an image whose metadata PUT is
    answered 204 is reported as already on the repository, gets no other
    request, and the handler returns for the next ancestor. *)
Theorem push_request_counts :
  (∀ chain st, ∃ evs,
      trace (push_chain d net chain st) = trace st ++ evs
      ∧ count_phase PutJson evs = length (filter (λ i, readable d i = true) chain)
      ∧ count_phase PutJson evs ≤ length chain
      ∧ count_phase PutLayer evs ≤ count_phase PutJson evs
      ∧ count_phase PutStorage evs ≤ count_phase PutLayer evs)
  ∧ (∀ img chain st jsonRaw r,
      ReadFile d (path_Join (Root d) (Id img) "json") = Ok jsonRaw →
      net (requests (trace st)) (json_request (Id img) jsonRaw) = Ok r →
      StatusCode r = 204%Z →
      push_image d net img st
      = mkState (graph st)
          (trace st ++ [EvHttp PutJson (Id img) (json_request (Id img) jsonRaw)])
          (stdout st ++ [Pushing (Id img); AlreadyOnRepository])
      ∧ push_chain d net (img :: chain) st
        = push_chain d net chain (push_image d net img st)).
Proof.
  split.
  - intros chain st.
    destruct (push_chain_outcome chain st) as (evs & msgs & -> & Hout).
    exists evs. split; [done|].
    apply chain_outcome_counts in Hout as (H1 & H2 & H3).
    repeat split; try done. rewrite H1. apply length_filter.
  - intros img chain st jsonRaw r Hread Hnet H204. split; [|done].
    destruct (push_image_outcome img st) as (evs & msgs & -> & Hout).
    destruct Hout as [err Hr|jsonRaw' m Hr Hno Hm|jsonRaw' r1 m Hr H1 E1
                      |jsonRaw' ? ? r1 ? m Hr ? H1 E1|evs Hup].
    + congruence.
    + assert (jsonRaw' = jsonRaw) as -> by congruence.
      by rewrite (Hm r Hnet H204).
    + assert (jsonRaw' = jsonRaw) as -> by congruence.
      assert (r1 = r) as -> by congruence. lia.
    + assert (jsonRaw' = jsonRaw) as -> by congruence.
      assert (r1 = r) as -> by congruence. lia.
    + destruct Hup as (jsonRaw' & ? & ? & r1 & ? & ? & Hr & _ & _ & H1 & E1 & _).
      assert (jsonRaw' = jsonRaw) as -> by congruence.
      assert (r1 = r) as -> by congruence. lia.
Qed.


(** C10: when the image to push is not in the graph, [CmdPush] returns
    nil and leaves the state as it found it, with nothing printed and no
    request made; the value returned is the one every other run of
    [CmdPush] returns. *)
Theorem push_unknown_image (name : string) (rest : list string) (st : State)
    (err : string) :
  Get (graph st) name = Err err →
  CmdPush d net (Positional (name :: rest)) st = (None, st)
  ∧ ∀ args' st',
      fst (CmdPush d net args' st')
      = fst (CmdPush d net (Positional (name :: rest)) st).
Proof.
  intros Hget.
  assert (CmdPush d net (Positional (name :: rest)) st = (None, st)) as Heq.
  { unfold CmdPush. by rewrite Hget. }
  split; [done|]. intros args' st'. rewrite Heq.
  apply CmdPush_returns_nil.
Qed.

End Push.

(** C3, counterexample: the chain of an image whose persisted JSON cannot
    be read has one image, and its push makes no metadata PUT. *)
Lemma unreadable_image_gets_no_put :
  length (History graph_nullable img_nullable) = 1
  ∧ count_phase PutJson
      (trace (snd (CmdPush (disk_of [] []) registry (Positional ["a"])
                     (mkState graph_nullable [] [])))) = 0
  ∧ stdout (snd (CmdPush (disk_of [] []) registry (Positional ["a"])
                   (mkState graph_nullable [] [])))
    = [Pushing "a";
       ErrPath "a" "open /var/lib/docker/graph/a/json: no such file or directory"].
Proof. repeat split; by vm_compute. Qed.

(** An image the registry already has. *)
Lemma push_request_counts_witness :
  push_image disk_nullable (answering 204) img_nullable empty_state
  = mkState ∅ [EvHttp PutJson "a" (json_request "a" json_nullable)]
      [Pushing "a"; AlreadyOnRepository].
Proof.
  apply (proj2 (push_request_counts disk_nullable (answering 204))
           img_nullable [] empty_state json_nullable (plain_response 204 ""));
    reflexivity.
Defined.

Lemma push_unknown_image_witness :
  CmdPush disk_nullable registry (Positional ["b"]) (mkState graph_nullable [] [])
  = (None, mkState graph_nullable [] []).
Proof.
  apply (push_unknown_image disk_nullable registry "b" [] (mkState graph_nullable [] [])
           "Image does not exist: b").
  by vm_compute.
Defined.

(** ** Pull *)

Section Pull.
Context (d : Disk) (net : Net).

Lemma getRemoteImage_frame (base id : string) (st st' : State)
    (r : result error (Image * Reader)) :
  getRemoteImage net base id st = (r, st') →
  graph st' = graph st
  ∧ stdout st' = stdout st
  ∧ (∃ evs, trace st' = trace st ++ evs ∧ Forall (step_event base id) evs)
  ∧ (∀ img layer, r = Ok (img, layer) → Id img = id).
Proof.
  unfold getRemoteImage, http_Get, Do, log_event; simpl.
  destruct (net (requests (trace st)) _) as [res|err]; simpl.
  2:{ intros [= <- <-]; simpl. repeat split; try done.
      eexists [_]. split; [done|]. constructor; [by left|constructor]. }
  destruct (ReadAll (Body res)) as [jsonString|err].
  2:{ intros [= <- <-]; simpl. repeat split; try done.
      eexists [_]. split; [done|]. constructor; [by left|constructor]. }
  destruct (newImgJson jsonString) as [img|err].
  2:{ intros [= <- <-]; simpl. repeat split; try done.
      eexists [_]. split; [done|]. constructor; [by left|constructor]. }
  destruct (net _ _) as [res2|err]; simpl.
  - intros [= <- <-]; simpl. repeat split; try done.
    + eexists [_; _]. rewrite <- app_assoc. split; [done|].
      constructor; [by left|]. constructor; [right; by left|constructor].
    + by intros ? ? [= <- _].
  - intros [= <- <-]; simpl. repeat split; try done.
    eexists [_; _]. rewrite <- app_assoc. split; [done|].
    constructor; [by left|]. constructor; [right; by left|constructor].
Qed.

Lemma Exists_false (g : Graph) (id : string) : Exists g id = false ↔ g !! id = None.
Proof.
  unfold Exists. rewrite bool_decide_eq_false, <- eq_None_not_Some. done.
Qed.

Lemma Exists_mono (g g' : Graph) (id : string) :
  g ⊆ g' → Exists g' id = false → Exists g id = false.
Proof.
  rewrite !Exists_false. intros Hsub Hnone.
  destruct (g !! id) as [e|] eqn:E; [|done].
  eapply lookup_weaken in E; [|done]. congruence.
Qed.

(** One turn of the loop: the graph only grows, and is left as it was
    when the turn ends in an error; every event of the turn is for the id
    of the entry, which the graph did not have. *)
Lemma pull_step_frame (base : string) (j : Image)
    (st st' : State) (r : option error) :
  pull_step d net base j st = (r, st') →
  graph st ⊆ graph st'
  ∧ (is_Some r → graph st' = graph st)
  ∧ stdout st' = stdout st
  ∧ ∃ evs, trace st' = trace st ++ evs
           ∧ Forall (step_event base (Id j)) evs
           ∧ (evs ≠ [] → Exists (graph st) (Id j) = false).
Proof.
  unfold pull_step.
  destruct (Exists (graph st) (Id j)) eqn:Hex; simpl.
  { intros [= <- <-]. split; [done|]. split; [by intros [? [=]]|]. split; [done|].
    exists []. rewrite app_nil_r. by split; [|split; [constructor|]]. }
  destruct (getRemoteImage net base (Id j) st) as [[[img layer]|err] st1] eqn:Hget;
    apply getRemoteImage_frame in Hget as (Hg & Hout & (evs & Htr & Hevs) & Hid).
  2:{ intros [= <- <-]. rewrite Hg. split; [done|]. split; [done|]. split; [done|].
      by exists evs. }
  specialize (Hid img layer eq_refl).
  assert (Forall (step_event base (Id j)) (evs ++ [EvRegister img layer])) as Hall.
  { apply Forall_app. split; [done|].
    constructor; [|constructor]. right. right. by exists img, layer. }
  unfold Register, log_event; simpl.
  destruct (ReadAll layer) as [bytes|err]; simpl.
  2:{ intros [= <- <-]; simpl. rewrite Hg, Htr.
      split; [done|]. split; [done|]. split; [done|].
      exists (evs ++ [EvRegister img layer]). by rewrite app_assoc. }
  destruct (write_fails d (Id img)); simpl.
  { intros [= <- <-]; simpl. rewrite Hg, Htr.
    split; [done|]. split; [done|]. split; [done|].
    exists (evs ++ [EvRegister img layer]). by rewrite app_assoc. }
  intros [= <- <-]; simpl. rewrite Hg, Htr, Hid.
  split; [apply insert_subseteq; by apply Exists_false|].
  split; [by intros [? [=]]|]. split; [done|].
  exists (evs ++ [EvRegister img layer]). by rewrite app_assoc.
Qed.


Lemma pull_loop_grows (base : string) (js : list Image)
    (st st' : State) (r : option error) :
  pull_loop d net base js st = (r, st') → graph st ⊆ graph st'.
Proof.
  revert st. induction js as [|j js IH]; intros st; simpl.
  - by intros [= _ <-].
  - destruct (pull_step d net base j st) as [[err|] st2] eqn:Hstep;
      apply pull_step_frame in Hstep as (Hsub & _).
    + by intros [= _ <-].
    + intros H. apply IH in H. by etrans.
Qed.

Lemma step_event_pull_event (base : string) (g0 g : Graph) (id : string) (evs : list Event) :
  g0 ⊆ g →
  (evs ≠ [] → Exists g id = false) →
  Forall (step_event base id) evs → Forall (pull_event base g0) evs.
Proof.
  intros Hsub Hne Hevs.
  destruct evs as [|e evs]; [constructor|].
  assert (Exists g0 id = false) as H0 by (eapply Exists_mono; [done|]; by apply Hne).
  revert Hevs. generalize (e :: evs). clear e evs Hne. intros evs.
  intros Hevs. eapply Forall_impl; [exact Hevs|].
  intros e [->|[->|(img & layer & -> & <-)]]; by simpl.
Qed.

Lemma pull_loop_events (base : string) (g0 : Graph)
    (js : list Image) (st st' : State) (r : option error) :
  g0 ⊆ graph st →
  pull_loop d net base js st = (r, st') →
  ∃ evs, trace st' = trace st ++ evs ∧ Forall (pull_event base g0) evs.
Proof.
  revert st. induction js as [|j js IH]; intros st Hsub; simpl.
  - intros [= _ <-]. exists []. by rewrite app_nil_r.
  - destruct (pull_step d net base j st) as [[err|] st2] eqn:Hstep;
      apply pull_step_frame in Hstep as (Hgrow & _ & _ & evs & Htr & Hevs & Hne).
    + intros [= _ <-]. exists evs. split; [done|].
      by eapply step_event_pull_event.
    + intros H. apply IH in H as (evs' & Htr' & Hevs'); [|by etrans].
      exists (evs ++ evs'). rewrite Htr', Htr, app_assoc. split; [done|].
      apply Forall_app. split; [|done]. by eapply step_event_pull_event.
Qed.

Lemma getHistory_frame (base id : string) (st st' : State)
    (r : result error (list Image)) :
  getHistory net base id st = (r, st') →
  st' = log_event st (EvHttp GetHistory id (NewRequest "GET" (base +:+ id +:+ "/history") NoBody)).
Proof.
  unfold getHistory, http_Get, Do.
  destruct (net _ _) as [res|err]; [|by intros [= _ <-]].
  destruct (ReadAll (Body res)) as [jsonString|err]; [|by intros [= _ <-]].
  destruct (newMultipleImgJson jsonString); by intros [= _ <-].
Qed.

Lemma last_byte_url (a b : string) (c : ascii) (s : string) :
  last_byte (a +:+ b +:+ String c s) = last_byte (String c s).
Proof. by rewrite <- append_assoc, last_byte_append. Qed.

Lemma url_differs (base a b sa sb : string) :
  a ≠ b ∨ last_byte (base +:+ a +:+ sa) ≠ last_byte (base +:+ b +:+ sb) →
  sa = sb ∨ last_byte (base +:+ a +:+ sa) ≠ last_byte (base +:+ b +:+ sb) →
  (base +:+ a +:+ sa =? base +:+ b +:+ sb)%string = false.
Proof.
  intros H1 H2. apply String.eqb_neq. intros Heq.
  destruct H2 as [->|H2]; [|by rewrite Heq in H2].
  destruct H1 as [H1|H1]; [|by rewrite Heq in H1].
  apply H1. apply String.app_inj in Heq. by apply append_inv_tail in Heq.
Qed.

Lemma pull_event_not_fetching (base : string) (g0 : Graph) (id : string) (e : Event) :
  Exists g0 id = true → pull_event base g0 e → fetches base id e = false.
Proof.
  intros Hex. destruct e as [ph j req|img layer]; simpl.
  - assert (Exists g0 j = false → j ≠ id) as Hne by (intros ? ->; congruence).
    destruct ph; try done.
    + intros ->. simpl. apply orb_false_intro; apply url_differs;
        right; by rewrite !last_byte_url.
    + intros [Hj ->]. simpl. apply orb_false_intro; apply url_differs.
      * left. by apply Hne.
      * by left.
      * left. by apply Hne.
      * right. by rewrite !last_byte_url.
    + intros [Hj ->]. simpl. apply orb_false_intro; apply url_differs.
      * left. by apply Hne.
      * right. by rewrite !last_byte_url.
      * left. by apply Hne.
      * by left.
  - intros Himg. apply String.eqb_neq. intros <-. congruence.
Qed.

(** C4: in a pull, metadata and layer are asked for, and an image is
    registered, only for ids the graph did not have when the pull began; for
    an id the graph had, no request goes to the URL of its json or of its
    layer, and no image with that id is registered. *)
Theorem pull_skips_local_images (o : MapOrder) (args : Args)
    (st : State) (id : string) :
  Exists (graph st) id = true →
  ∃ evs, trace (snd (CmdPulli d net o args st)) = trace st ++ evs
         ∧ Forall (pull_event base_uri (graph st)) evs
         ∧ Forall (λ e, fetches base_uri id e = false) evs.
Proof.
  intros Hex.
  assert (∃ evs, trace (snd (CmdPulli d net o args st)) = trace st ++ evs
                 ∧ Forall (pull_event base_uri (graph st)) evs) as (evs & Htr & Hevs).
  { destruct args as [|[|name rest]]; simpl.
    - exists []. by rewrite app_nil_r.
    - exists []. by rewrite app_nil_r.
    - fold base_uri.
      destruct (getHistory net base_uri name st) as [[history|err] st0] eqn:Hh;
        apply getHistory_frame in Hh as ->; simpl.
      + destruct (pull_loop d net base_uri (range o history) _) as [r st'] eqn:Hloop.
        apply (pull_loop_events _ (graph st)) in Hloop as (evs & Htr & Hevs); [|done].
        simpl in *. rewrite Htr. eexists (_ :: evs). rewrite <- app_assoc.
        split; [done|]. by constructor.
      + eexists [_]. split; [done|]. by constructor. }
  exists evs. split; [done|]. split; [done|].
  eapply Forall_impl; [exact Hevs|]. intros e. by apply pull_event_not_fetching.
Qed.

Lemma CmdPulli_manifest (o : MapOrder) (name : string)
    (rest : list string) (st : State) :
  match getHistory net base_uri name st with
  | (Err err, st') =>
      CmdPulli d net o (Positional (name :: rest)) st = (Some err, st')
      ∧ graph st' = graph st
  | (Ok history, st0) =>
      CmdPulli d net o (Positional (name :: rest)) st
      = pull_loop d net base_uri (range o history) st0
      ∧ graph st0 = graph st
  end.
Proof.
  simpl. fold base_uri.
  destruct (getHistory net base_uri name st) as [[history|err] st0] eqn:Hh;
    apply getHistory_frame in Hh as ->; done.
Qed.



End Pull.

(** A graph that has a, pulling b whose manifest lists a and b. *)
Lemma pull_skips_local_images_witness :
  ∃ evs, trace (snd (CmdPulli (disk_of [] []) serves_b identity_order (Positional ["b"])
                       (mkState graph_with_a [] []))) = [] ++ evs
         ∧ Forall (pull_event base_uri graph_with_a) evs
         ∧ Forall (λ e, fetches base_uri "a" e = false) evs.
Proof.
  apply (pull_skips_local_images (disk_of [] []) serves_b identity_order
           (Positional ["b"]) (mkState graph_with_a [] []) "a").
  by vm_compute.
Defined.


(** C5, on the code: an image imported from an archive with null in its
    name is uploaded in full (200, 307 with a Location, 200), and the pull
    of it into an empty graph from the registry that holds it ends in an
    error at the manifest, with nothing registered. *)
Lemma round_trip_breaks_on_null_inside_a_string :
  CmdPush disk_imported registry (Positional ["a"]) (mkState graph_imported [] [])
  = (None, mkState graph_imported upload_of_imported [Pushing "a"])
  ∧ uploaded disk_imported registry img_imported [] upload_of_imported
  ∧ CmdPulli disk_imported registry identity_order (Positional ["a"])
      (mkState ∅ upload_of_imported [])
    = (Some (ParsingJson SyntaxError),
       mkState ∅
         (upload_of_imported
          ++ [EvHttp GetHistory "a" (NewRequest "GET" (base_uri +:+ "a/history") NoBody)])
         []).
Proof.
  split; [by vm_compute|]. split; [|by vm_compute].
  eexists json_imported, "layer-bytes-of-a", _, _, _, _.
  repeat split; vm_compute; reflexivity.
Qed.

(** ** The scenario of the spec *)

(** The chain C over B over A is pushed to an empty registry and pulled
    into an empty graph: every image is uploaded without a diagnostic, and
    the pull registers the three images with the layers that were sent. *)
Example push_then_pull_chain :
  ∃ pushed,
    CmdPush disk_ABC registry (Positional ["C"]) (mkState graph_ABC [] [])
    = (None, pushed)
    ∧ stdout pushed = [Pushing "C"; Pushing "B"; Pushing "A"]
    ∧ count_phase PutStorage (trace pushed) = 3
    ∧ ∃ pulled,
        CmdPulli disk_ABC registry identity_order (Positional ["C"])
          (mkState ∅ (trace pushed) [])
        = (None, pulled)
        ∧ graph pulled = graph_ABC.
Proof.
  eexists. split; [vm_compute; reflexivity|]. split; [by vm_compute|].
  split; [by vm_compute|].
  eexists. split; [vm_compute; reflexivity|]. by vm_compute.
Qed.

(** A second push of the chain finds every image on the registry and
    sends no layer. *)
Example push_twice_sends_no_layer :
  ∃ pushed,
    CmdPush disk_ABC registry (Positional ["C"]) (mkState graph_ABC [] [])
    = (None, pushed)
    ∧ ∃ again,
        CmdPush disk_ABC registry (Positional ["C"]) (mkState graph_ABC (trace pushed) [])
        = (None, again)
        ∧ stdout again
          = [Pushing "C"; AlreadyOnRepository; Pushing "B"; AlreadyOnRepository;
             Pushing "A"; AlreadyOnRepository]
        ∧ count_phase PutStorage (trace again) = 3.
Proof.
  eexists. split; [vm_compute; reflexivity|].
  eexists. split; [vm_compute; reflexivity|]. split; by vm_compute.
Qed.

(** * Further properties *)

(** ** The purification of nulls *)

Lemma replace_go_prefix (p new s : string) :
  no_dquote p = true →
  String.prefix p (replace_go "null" (String dquote new) 0 s) = true →
  String.prefix p s = true.
Proof.
  revert s. induction p as [|a p IH]; intros s Hp; [by rewrite !prefix_nil_l|].
  simpl in Hp. apply andb_true_iff in Hp as [Ha Hp].
  destruct s as [|c s]; [done|].
  change (replace_go "null" (String dquote new) 0 (String c s))
    with (if String.prefix "null" (String c s)
          then String dquote new +:+ replace_go "null" (String dquote new) 3 s
          else String c (replace_go "null" (String dquote new) 0 s)).
  destruct (String.prefix "null" (String c s)).
  - rewrite append_cons, prefix_cons.
    destruct (ascii_dec a dquote) as [->|]; [|done].
    by rewrite Ascii.eqb_refl in Ha.
  - rewrite !prefix_cons. destruct (ascii_dec a c); [|done]. by apply IH.
Qed.

Lemma has_null_cons (c : ascii) (s : string) :
  has_null (String c s) = String.prefix "null" (String c s) || has_null s.
Proof. reflexivity. Qed.

Lemma replace_go_no_null (s : string) (skip : nat) :
  has_null (replace_go "null" empty_string_literal skip s) = false.
Proof.
  revert skip. induction s as [|c s IH]; intros skip; [by destruct skip|].
  destruct skip as [|k]; [|apply IH].
  change (replace_go "null" empty_string_literal 0 (String c s))
    with (if String.prefix "null" (String c s)
          then empty_string_literal +:+ replace_go "null" empty_string_literal 3 s
          else String c (replace_go "null" empty_string_literal 0 s)).
  destruct (String.prefix "null" (String c s)) eqn:E.
  - unfold empty_string_literal. rewrite !append_cons, append_nil_l, !has_null_cons.
    rewrite !prefix_cons.
    destruct (ascii_dec "n" dquote) as [Heq|_]; [discriminate Heq|]. apply IH.
  - rewrite has_null_cons, IH, orb_false_r.
    destruct (String.prefix "null" (String c (replace_go "null" empty_string_literal 0 s)))
      eqn:E'; [|done].
    rewrite prefix_cons in E'. rewrite prefix_cons in E.
    destruct (ascii_dec "n" c); [|done].
    apply (replace_go_prefix "ull" (String dquote "")) in E'; [|done]. congruence.
Qed.

Lemma replace_go_id (new s : string) :
  has_null s = false → replace_go "null" new 0 s = s.
Proof.
  induction s as [|c s IH]; [done|].
  rewrite has_null_cons. intros [E Hs]%orb_false_iff.
  change (replace_go "null" new 0 (String c s))
    with (if String.prefix "null" (String c s)
          then new +:+ replace_go "null" new 3 s
          else String c (replace_go "null" new 0 s)).
  rewrite E. f_equal. by apply IH.
Qed.

Lemma purify_id (src : string) : has_null src = false → purify src = src.
Proof. apply replace_go_id. Qed.

Lemma purify_no_null (src : string) : has_null (purify src) = false.
Proof. apply replace_go_no_null. Qed.

(** X1: what the decoders hand to encoding/json never has the four bytes
    null in it, and purifying a second time changes nothing. *)
Theorem purify_leaves_no_null (src : string) :
  has_null (purify src) = false ∧ purify (purify src) = purify src.
Proof. split; [apply purify_no_null|apply purify_id, purify_no_null]. Qed.

(** X2: a payload without the four bytes null is read as it is: both
    decoders are then encoding/json on the payload itself. *)
Theorem decoders_on_payload_without_null (src : string) :
  has_null src = false →
  purify src = src
  ∧ newImgJson src = Unmarshal src zero_Image
  ∧ newMultipleImgJson src
    = decode_loop (pending (NewDecoder src)) (clean_end (NewDecoder src)) [].
Proof.
  intros H. apply purify_id in H as Hid. split; [done|]. split.
  - by rewrite newImgJson_Unmarshal, Hid.
  - unfold newMultipleImgJson. by rewrite Hid.
Qed.

Lemma decoders_on_payload_without_null_witness :
  purify stream_two_ids = stream_two_ids
  ∧ newImgJson stream_two_ids = Unmarshal stream_two_ids zero_Image
  ∧ newMultipleImgJson stream_two_ids
    = decode_loop (pending (NewDecoder stream_two_ids))
        (clean_end (NewDecoder stream_two_ids)) [].
Proof. apply (decoders_on_payload_without_null stream_two_ids). by vm_compute. Defined.

Lemma all_space_no_null (s : string) : all_space s = true → has_null s = false.
Proof.
  induction s as [|c s IH]; [done|].
  change (all_space (String c s)) with (is_json_space c && all_space s).
  intros [Hc Hs]%andb_true_iff. rewrite has_null_cons, IH, orb_false_r by done.
  rewrite prefix_cons. destruct (ascii_dec "n" c) as [<-|]; [done|done].
Qed.

Lemma run_all_space (s : string) :
  all_space s = true → run scan_start s = scan_start.
Proof.
  induction s as [|c s IH]; [done|]. simpl.
  intros [Hc Hs]%andb_true_iff.
  assert (step scan_start c = scan_start) as ->; [|by apply IH].
  unfold step, step_plain, begin_value; simpl. by rewrite Hc.
Qed.

Lemma blank_payload_decoders (src : string) :
  all_space src = true →
  newImgJson src = Err SyntaxError ∧ newMultipleImgJson src = Ok [].
Proof.
  intros H. pose proof (purify_id _ (all_space_no_null _ H)) as Hid.
  split.
  - rewrite newImgJson_Unmarshal, Hid. unfold Unmarshal, scan_values.
    by rewrite run_all_space.
  - unfold newMultipleImgJson, NewDecoder. rewrite Hid.
    by rewrite run_all_space.
Qed.

(** X3: a payload that is empty or all white space is an error for
    [newImgJson] and an empty set of images, without error, for
    [newMultipleImgJson]. *)
Theorem decoders_on_blank_payload (src : string) :
  all_space src = true →
  newImgJson src = Err SyntaxError ∧ newMultipleImgJson src = Ok [].
Proof. apply blank_payload_decoders. Qed.

Lemma decoders_on_blank_payload_witness :
  newImgJson (" " +:+ nl) = Err SyntaxError ∧ newMultipleImgJson (" " +:+ nl) = Ok [].
Proof. apply (decoders_on_blank_payload (" " +:+ nl)). by vm_compute. Defined.

(** ** More on pull *)

Section PullMore.
Context (d : Disk) (net : Net).

(** One turn of the loop, case by case. *)
Lemma pull_step_cases (base : string) (j : Image) (st st' : State) (r : option error) :
  pull_step d net base j st = (r, st') →
  (Exists (graph st) (Id j) = true ∧ r = None ∧ st' = st)
  ∨ (Exists (graph st) (Id j) = false
     ∧ ((is_Some r ∧ graph st' = graph st ∧ stdout st' = stdout st
         ∧ (trace st' = trace st ++ [EvHttp GetJson (Id j) (metadata_get base (Id j))]
            ∨ trace st' = trace st ++ [EvHttp GetJson (Id j) (metadata_get base (Id j));
                                       EvHttp GetLayer (Id j) (layer_get base (Id j))]
            ∨ ∃ img layer,
                Id img = Id j
                ∧ trace st' = trace st ++ [EvHttp GetJson (Id j) (metadata_get base (Id j));
                                           EvHttp GetLayer (Id j) (layer_get base (Id j));
                                           EvRegister img layer]))
        ∨ (r = None
           ∧ ∃ r1 payload decoded r2,
               net (requests (trace st)) (metadata_get base (Id j)) = Ok r1
               ∧ ReadAll (Body r1) = Ok payload
               ∧ newImgJson payload = Ok decoded
               ∧ net (requests (trace st) ++ [metadata_get base (Id j)])
                     (layer_get base (Id j)) = Ok r2
               ∧ read_error (Body r2) = None
               ∧ st' = mkState
                         (<[Id j := mkEntry (set_Id decoded (Id j)) (data (Body r2))]>
                            (graph st))
                         (trace st ++ [EvHttp GetJson (Id j) (metadata_get base (Id j));
                                       EvHttp GetLayer (Id j) (layer_get base (Id j));
                                       EvRegister (set_Id decoded (Id j)) (Body r2)])
                         (stdout st)))).
Proof.
  unfold pull_step.
  destruct (Exists (graph st) (Id j)) eqn:Hex; simpl.
  { intros [= <- <-]. by left. }
  intros H. right. split; [done|]. revert H.
  unfold getRemoteImage, http_Get, Do, log_event, metadata_get, layer_get; simpl.
  destruct (net (requests (trace st)) _) as [r1|e] eqn:H1; simpl.
  2:{ intros [= <- <-]. left. simpl. split; [by eexists|]. auto. }
  destruct (ReadAll (Body r1)) as [payload|e] eqn:Hread.
  2:{ intros [= <- <-]. left. simpl. split; [by eexists|]. auto. }
  destruct (newImgJson payload) as [decoded|e] eqn:Hdec.
  2:{ intros [= <- <-]. left. simpl. split; [by eexists|]. auto. }
  rewrite requests_snoc.
  destruct (net (requests (trace st) ++ _) _) as [r2|e] eqn:H2; simpl.
  2:{ intros [= <- <-]. left. simpl. split; [by eexists|].
      rewrite <- app_assoc. auto. }
  unfold Register, ReadAll; simpl.
  destruct (read_error (Body r2)) as [e|] eqn:Herr; simpl.
  { intros [= <- <-]. left. simpl. split; [by eexists|].
    rewrite <- !app_assoc. split; [done|]. split; [done|].
    right. right. eexists _, _. split; [|reflexivity]. reflexivity. }
  destruct (write_fails d (Id j)); simpl.
  { intros [= <- <-]. left. simpl. split; [by eexists|].
    rewrite <- !app_assoc. split; [done|]. split; [done|].
    right. right. eexists _, _. split; [|reflexivity]. reflexivity. }
  intros [= <- <-]. right. split; [done|].
  exists r1, payload, decoded, r2. rewrite <- !app_assoc. by simpl.
Qed.

Lemma Exists_true (g : Graph) (id : string) : Exists g id = true ↔ is_Some (g !! id).
Proof. unfold Exists. by rewrite bool_decide_eq_true. Qed.

Lemma Exists_grows (g g' : Graph) (id : string) :
  g ⊆ g' → Exists g id = true → Exists g' id = true.
Proof.
  rewrite !Exists_true. intros Hsub [e He]. exists e. by eapply lookup_weaken.
Qed.

Lemma pull_step_done (base : string) (j : Image) (st st' : State) :
  pull_step d net base j st = (None, st') → Exists (graph st') (Id j) = true.
Proof.
  intros H. apply pull_step_cases in H as [(Hex & _ & ->)|(_ & [([? [=]] & _)|(_ & H)])].
  - done.
  - destruct H as (r1 & payload & decoded & r2 & _ & _ & _ & _ & _ & ->). simpl.
    apply Exists_true. rewrite lookup_insert_eq. by eexists.
Qed.

Lemma pull_loop_done (base : string) (js : list Image) (st st' : State) (j : Image) :
  pull_loop d net base js st = (None, st') → j ∈ js →
  Exists (graph st') (Id j) = true.
Proof.
  revert st. induction js as [|i js IH]; intros st; simpl.
  - intros _ Hin. by apply elem_of_nil in Hin.
  - destruct (pull_step d net base i st) as [[e|] st1] eqn:Hstep; [done|].
    intros Hloop [->|Hin]%elem_of_cons; [|by eapply IH].
    apply pull_step_done in Hstep.
    eapply Exists_grows; [|done]. by eapply pull_loop_grows.
Qed.

(** X6: after a pull that returns nil, every image of the manifest is in
    the local graph. *)
Theorem pull_done_has_whole_manifest (o : MapOrder) (name : string)
    (rest : list string) (st st0 st' : State) (history : list Image) (j : Image) :
  getHistory net base_uri name st = (Ok history, st0) →
  CmdPulli d net o (Positional (name :: rest)) st = (None, st') →
  j ∈ history →
  Exists (graph st') (Id j) = true.
Proof.
  intros Hh Hcmd Hin.
  pose proof (CmdPulli_manifest d net o name rest st) as Hm.
  rewrite Hh in Hm. destruct Hm as [Hm _]. rewrite Hm in Hcmd.
  eapply pull_loop_done; [done|].
  by rewrite (range_perm o history).
Qed.



(** X8: what a turn of the loop stores under the id of an entry is the
    metadata the registry answered, decoded by [newImgJson] and with its
    id set to the id asked for, and the layer byte for byte as the body of
    the layer answer. *)
Theorem pull_stores_what_was_answered (base : string) (j : Image) (st st' : State) :
  Exists (graph st) (Id j) = false →
  pull_step d net base j st = (None, st') →
  ∃ r1 payload decoded r2,
    net (requests (trace st)) (metadata_get base (Id j)) = Ok r1
    ∧ ReadAll (Body r1) = Ok payload
    ∧ newImgJson payload = Ok decoded
    ∧ net (requests (trace st) ++ [metadata_get base (Id j)]) (layer_get base (Id j))
      = Ok r2
    ∧ graph st' !! Id j = Some (mkEntry (set_Id decoded (Id j)) (data (Body r2)))
    ∧ ∀ id, id ≠ Id j → graph st' !! id = graph st !! id.
Proof.
  intros Hex H.
  apply pull_step_cases in H as [(Hex' & _)|(_ & [([? [=]] & _)|(_ & H)])]; [congruence|].
  destruct H as (r1 & payload & decoded & r2 & H1 & Hread & Hdec & H2 & _ & ->).
  exists r1, payload, decoded, r2. simpl.
  repeat (split; [done|]). split; [by rewrite lookup_insert_eq|].
  intros id Hne. by rewrite lookup_insert_ne.
Qed.







End PullMore.

Lemma pull_done_has_whole_manifest_witness :
  Exists (graph (snd (CmdPulli (disk_of [] []) serves_b identity_order (Positional ["b"])
                        (mkState graph_with_a [] []))))
    "b" = true.
Proof.
  eapply (pull_done_has_whole_manifest (disk_of [] []) serves_b identity_order "b" []
            (mkState graph_with_a [] []) _ _
            [mkImage "a" "" "" "" []; mkImage "b" "a" "" "" []]
            (mkImage "b" "a" "" "" [])).
  - vm_compute. reflexivity.
  - vm_compute. reflexivity.
  - apply elem_of_cons. right. apply elem_of_cons. by left.
Defined.

Lemma pull_stores_what_was_answered_witness :
  ∃ r1 payload decoded r2,
    scripted [ok_response ("{" +:+ member "parent" "a" +:+ "}");
              ok_response "layer-bytes-of-b"] [] (metadata_get base_uri "b") = Ok r1
    ∧ ReadAll (Body r1) = Ok payload
    ∧ newImgJson payload = Ok decoded
    ∧ scripted [ok_response ("{" +:+ member "parent" "a" +:+ "}");
                ok_response "layer-bytes-of-b"]
        [metadata_get base_uri "b"] (layer_get base_uri "b") = Ok r2
    ∧ graph (snd (pull_step (disk_of [] [])
                    (scripted [ok_response ("{" +:+ member "parent" "a" +:+ "}");
                               ok_response "layer-bytes-of-b"])
                    base_uri (mkImage "b" "a" "" "" [])
                    (mkState graph_with_a [] []))) !! "b"
      = Some (mkEntry (set_Id decoded "b") (data (Body r2)))
    ∧ ∀ id, id ≠ "b" →
            graph (snd (pull_step (disk_of [] [])
                          (scripted [ok_response ("{" +:+ member "parent" "a" +:+ "}");
                                     ok_response "layer-bytes-of-b"])
                          base_uri (mkImage "b" "a" "" "" [])
                          (mkState graph_with_a [] []))) !! id
            = graph_with_a !! id.
Proof.
  apply (pull_stores_what_was_answered (disk_of [] [])
           (scripted [ok_response ("{" +:+ member "parent" "a" +:+ "}");
                      ok_response "layer-bytes-of-b"])
           base_uri (mkImage "b" "a" "" "" []) (mkState graph_with_a [] [])).
  - by vm_compute.
  - by vm_compute.
Defined.


Section PushMore.
Context (d : Disk) (net : Net).

Lemma push_outcome_events (img : Image) (past : list Request) (evs : list Event)
    (msgs : list Msg) :
  push_outcome d net img past evs msgs →
  Forall (push_event d [img]) evs ∧ length evs ≤ 3.
Proof.
  assert (Id img ∈ map Id [img]) as Hin by (simpl; apply elem_of_cons; by left).
  destruct 1 as [err Hread|jsonRaw m Hread _ _ _|jsonRaw r1 m Hread _ _ _
                 |jsonRaw layerData url r1 r2 m Hread _ _ _ _ _ _ _|evs Hup].
  - split; [constructor|simpl; lia].
  - split; [|simpl; lia]. constructor; [|constructor].
    repeat split; [done|]. by exists jsonRaw.
  - split; [|simpl; lia].
    constructor; [|constructor; [|constructor]].
    + repeat split; [done|]. by exists jsonRaw.
    + by repeat split.
  - split; [|simpl; lia].
    constructor; [|constructor; [|constructor; [|constructor]]].
    + repeat split; [done|]. by exists jsonRaw.
    + by repeat split.
    + by repeat split.
  - destruct Hup as (jsonRaw & layerData & url & r1 & r2 & r3 & Hread & _ & -> & _).
    split; [|simpl; lia].
    constructor; [|constructor; [|constructor; [|constructor]]].
    + repeat split; [done|]. by exists jsonRaw.
    + by repeat split.
    + by repeat split.
Qed.

Lemma push_event_mono (chain chain' : list Image) (e : Event) :
  (∀ id, id ∈ map Id chain → id ∈ map Id chain') →
  push_event d chain e → push_event d chain' e.
Proof.
  intros Hsub. destruct e as [ph id req|]; [|done]. simpl.
  intros (Hin & Hrest). split; [by apply Hsub|done].
Qed.

Lemma chain_outcome_events (past : list Request) (chain : list Image)
    (evs : list Event) (msgs : list Msg) :
  chain_outcome d net past chain evs msgs →
  Forall (push_event d chain) evs ∧ length evs ≤ 3 * length chain.
Proof.
  induction 1 as [past|past img chain evs evs' msgs msgs' Hout Hchain [IH1 IH2]].
  - split; [constructor|simpl; lia].
  - apply push_outcome_events in Hout as [H1 H2]. split.
    + apply Forall_app. split.
      * eapply Forall_impl; [exact H1|]. intros e. apply push_event_mono.
        intros id [->|Hin%elem_of_nil]%elem_of_cons; [|done].
        simpl. apply elem_of_cons. by left.
      * eapply Forall_impl; [exact IH1|]. intros e. apply push_event_mono.
        intros id Hin. simpl. apply elem_of_cons. by right.
    + rewrite length_app. simpl. lia.
Qed.

(** X9: a push leaves the graph as it found it, and all it sends is PUT
    requests for images of the chain, three at most for each: the metadata
    PUT carries the bytes of the image's json file as they were read from
    the disk, the layer PUT to the registry has no body, and nothing is
    fetched or registered. *)
Theorem push_sends_only_puts :
  (∀ args st, graph (snd (CmdPush d net args st)) = graph st)
  ∧ (∀ chain st, ∃ evs,
       trace (push_chain d net chain st) = trace st ++ evs
       ∧ Forall (push_event d chain) evs
       ∧ length evs ≤ 3 * length chain).
Proof.
  split.
  - intros [|[|name rest]] st; simpl; [done..|].
    destruct (Get (graph st) name) as [img|err]; [|done]. simpl.
    unfold WalkHistory.
    change (fold_left (λ s i, push_image d net i s) (History (graph st) img) st)
      with (push_chain d net (History (graph st) img) st).
    by destruct (push_chain_outcome d net (History (graph st) img) st)
      as (evs & msgs & -> & _).
  - intros chain st.
    destruct (push_chain_outcome d net chain st) as (evs & msgs & -> & Hout).
    exists evs. split; [done|]. by eapply chain_outcome_events.
Qed.

End PushMore.

(** ** The other commands *)

Section ContainersMore.
Context {R C : Type} `{Runtime R C}.

Lemma each_container_app (op : C → R → option string * R) (pre post : list string)
    (w w1 : Cli R) :
  each_container op pre w = (None, w1) →
  each_container op (pre ++ post) w = each_container op post w1.
Proof.
  revert w. induction pre as [|name pre IH]; intros w; simpl.
  - by intros [= ->].
  - destruct (runtime_Get (runtime w) name) as [c|]; [|done].
    destruct (op c (runtime w)) as [[err|] rt]; [done|]. apply IH.
Qed.

(** X10: [CmdStop], [CmdRestart], [CmdStart] and [CmdMount] end at the
    first name that is no container or whose container cannot be operated
    on: the names after it are not looked at, what was done to the containers
    before it stays done, with their lines written, and the error is the one
    of that name. *)
Theorem each_container_stops_at_first_failure (op : C → R → option string * R)
    (pre post : list string) (name : string) (w w1 w2 : Cli R) (err : string) :
  each_container op pre w = (None, w1) →
  each_container op [name] w1 = (Some err, w2) →
  each_container op (pre ++ name :: post) w = (Some err, w2)
  ∧ output w2 = output w1
  ∧ (runtime_Get (runtime w1) name = None →
     err = "No such container: " +:+ name ∧ w2 = w1).
Proof.
  intros Hpre Hname. rewrite (each_container_app _ _ _ _ _ Hpre).
  revert Hname. simpl.
  destruct (runtime_Get (runtime w1) name) as [c|].
  - destruct (op c (runtime w1)) as [[e|] rt]; [|done].
    by intros [= <- <-].
  - by intros [= <- <-].
Qed.






End ContainersMore.

(** Three containers, b named after a; b does not run. *)
Lemma each_container_stops_at_first_failure_witness :
  CmdStop (Positional (["a"] ++ "b" :: ["c"]))
    (mkCli ({[ "a" := true; "b" := false; "c" := true ]} : gmap string bool) [])
  = (Some "not running: b",
     mkCli {[ "a" := false; "b" := false; "c" := true ]} ["[a]" +:+ nl]).
Proof.
  apply (each_container_stops_at_first_failure container_Stop ["a"] ["c"] "b"
           (mkCli ({[ "a" := true; "b" := false; "c" := true ]} : gmap string bool) [])
           (mkCli {[ "a" := false; "b" := false; "c" := true ]} ["[a]" +:+ nl])
           (mkCli {[ "a" := false; "b" := false; "c" := true ]} ["[a]" +:+ nl])
           "not running: b");
    by vm_compute.
Defined.

Section RmiMore.
Context (Delete : string → Graph → option string * Graph).

Lemma rmi_loop_frame (names : list string) (g : Graph) (id : string) :
  (∀ name g id', id' ≠ name → snd (Delete name g) !! id' = g !! id') →
  id ∉ names →
  snd (rmi_loop Delete names g) !! id = g !! id.
Proof.
  intros Hframe. revert g. induction names as [|name names IH]; intros g Hid; [done|].
  apply not_elem_of_cons in Hid as [Hne Hid]. simpl.
  specialize (Hframe name g id Hne).
  destruct (Delete name g) as [[err|] g1]; simpl in *; [done|].
  by rewrite IH.
Qed.

(** X13: as long as [Delete] touches no image but the one it is given,
    [CmdRmi] leaves every image it is not given as it was, whether it
    returns nil or the error of a [Delete], and it writes nothing. *)
Theorem CmdRmi_touches_named_images_only (name : string) (names : list string)
    (w : Cli Graph) (id : string) :
  (∀ name g id', id' ≠ name → snd (Delete name g) !! id' = g !! id') →
  id ∉ name :: names →
  runtime (snd (CmdRmi Delete (Positional (name :: names)) w)) !! id = runtime w !! id
  ∧ output (snd (CmdRmi Delete (Positional (name :: names)) w)) = output w.
Proof.
  intros Hframe Hid.
  pose proof (rmi_loop_frame (name :: names) (runtime w) id Hframe Hid) as Hloop.
  unfold CmdRmi.
  by destruct (rmi_loop Delete (name :: names) (runtime w)) as [err g].
Qed.

Lemma rmi_loop_app (pre post : list string) (g g1 : Graph) :
  rmi_loop Delete pre g = (None, g1) →
  rmi_loop Delete (pre ++ post) g = rmi_loop Delete post g1.
Proof.
  revert g. induction pre as [|name pre IH]; intros g; simpl.
  - by intros [= ->].
  - destruct (Delete name g) as [[err|] g']; [done|]. apply IH.
Qed.

(** X14: [CmdRmi] ends at the first image [Delete] refuses and returns its
    error: the images named before it stay deleted, and the names after it
    are not tried. *)
Theorem CmdRmi_stops_at_first_error (pre post : list string) (name : string)
    (w : Cli Graph) (g1 g2 : Graph) (err : string) :
  rmi_loop Delete pre (runtime w) = (None, g1) →
  Delete name g1 = (Some err, g2) →
  CmdRmi Delete (Positional (pre ++ name :: post)) w = (Some err, mkCli g2 (output w)).
Proof.
  intros Hpre Hdel.
  assert (rmi_loop Delete (pre ++ name :: post) (runtime w) = (Some err, g2)) as Hloop.
  { rewrite (rmi_loop_app _ _ _ _ Hpre). simpl. by rewrite Hdel. }
  unfold CmdRmi. rewrite Hloop. by destruct pre.
Qed.

End RmiMore.

Lemma delete_known_frame (name : string) (g : Graph) (id' : string) :
  id' ≠ name → snd (delete_known name g) !! id' = g !! id'.
Proof.
  intros Hne. unfold delete_known. destruct (g !! name); simpl; [|done].
  by rewrite lookup_delete_ne.
Qed.

Lemma CmdRmi_touches_named_images_only_witness :
  runtime (snd (CmdRmi delete_known (Positional ["A"; "nowhere"; "B"])
                  (mkCli graph_ABC []))) !! "C" = graph_ABC !! "C"
  ∧ output (snd (CmdRmi delete_known (Positional ["A"; "nowhere"; "B"])
                   (mkCli graph_ABC []))) = [].
Proof.
  apply (CmdRmi_touches_named_images_only delete_known "A" ["nowhere"; "B"]
           (mkCli graph_ABC []) "C").
  - apply delete_known_frame.
  - intros Hin. repeat (apply elem_of_cons in Hin as [Hin|Hin]; [done|]).
    by apply elem_of_nil in Hin.
Defined.

Lemma CmdRmi_stops_at_first_error_witness :
  CmdRmi delete_known (Positional (["A"] ++ "nowhere" :: ["B"])) (mkCli graph_ABC [])
  = (Some "No such image: nowhere", mkCli (delete "A" graph_ABC) []).
Proof.
  apply (CmdRmi_stops_at_first_error delete_known ["A"] ["B"] "nowhere"
           (mkCli graph_ABC []) (delete "A" graph_ABC) (delete "A" graph_ABC));
    by vm_compute.
Defined.




Lemma digit_value_pretty (n : N) :
  (n < 10)%N → digit_value (pretty_N_char n) = Some (Z.of_N n).
Proof.
  intros Hn.
  assert (n = 0 ∨ n = 1 ∨ n = 2 ∨ n = 3 ∨ n = 4 ∨ n = 5 ∨ n = 6 ∨ n = 7 ∨ n = 8
          ∨ n = 9)%N as Hcases by lia.
  repeat (destruct Hcases as [->|Hcases]; [done|]). by subst n.
Qed.

Lemma digits_value_pretty (x : N) (s : string) :
  digits_value 0 (pretty_N_go x s) = digits_value (Z.of_N x) s.
Proof.
  revert s. induction (N.lt_wf_0 x) as [x _ IH]; intros s.
  assert (x = 0 ∨ 0 < x)%N as [->|Hpos] by lia; [done|].
  rewrite pretty_N_go_step by done.
  rewrite IH by (by apply N.div_lt). simpl.
  rewrite digit_value_pretty by (by apply N.mod_lt).
  f_equal. pose proof (N.div_mod x 10). lia.
Qed.

Lemma Atoi_digits (c : ascii) (s : string) (n : Z) :
  digits_value 0 (String c s) = Some n →
  (- 2 ^ 63 ≤ n < 2 ^ 63)%Z →
  Atoi (String c s) = Some n.
Proof.
  intros Hdigits Hrange. unfold Atoi.
  assert ((c =? "-")%char = false ∧ (c =? "+")%char = false) as [-> ->].
  { split; apply Ascii.eqb_neq; intros ->; by vm_compute in Hdigits. }
  simpl orb. cbv iota. rewrite Hdigits.
  destruct (Z.leb_spec (- 2 ^ 63) n); [|lia].
  destruct (Z.ltb_spec n (2 ^ 63)); [done|lia].
Qed.

Lemma pretty_positive_digits (p : positive) :
  ∃ c s, pretty p = String c s ∧ digits_value 0 (String c s) = Some (Z.pos p).
Proof.
  assert (digits_value 0 (pretty p) = Some (Z.pos p)) as Hd.
  { unfold pretty, pretty_positive, pretty, pretty_N.
    rewrite decide_False by done. by rewrite digits_value_pretty. }
  destruct (pretty p) as [|c s] eqn:Hp; [|by exists c, s].
  by vm_compute in Hd.
Qed.

Lemma Atoi_pretty (z : Z) :
  (- 2 ^ 63 ≤ z < 2 ^ 63)%Z → Atoi (pretty z) = Some z.
Proof.
  intros Hrange. destruct z as [|p|p].
  - done.
  - destruct (pretty_positive_digits p) as (c & s & Hp & Hd).
    change (pretty (Z.pos p)) with (pretty p). rewrite Hp. by apply Atoi_digits.
  - destruct (pretty_positive_digits p) as (c & s & Hp & Hd).
    change (pretty (Z.neg p)) with (String "-" (pretty p)). rewrite Hp.
    unfold Atoi. change (("-" =? "-")%char) with true. simpl orb. cbv iota.
    rewrite Hd. cbv zeta.
    change (- Z.pos p)%Z with (Z.neg p).
    destruct (Z.leb_spec (- 2 ^ 63) (Z.neg p)); [|lia].
    destruct (Z.ltb_spec (Z.neg p) (2 ^ 63)); [done|lia].
Qed.

(** X16: [ports.Set] takes any int written in decimal, and appends it to
    the ports set before: there is no check that the number can be a port,
    a negative one or one above 65535 is kept like any other. *)
Theorem ports_Set_keeps_any_int (z : Z) (p : list Z) :
  (- 2 ^ 63 ≤ z < 2 ^ 63)%Z →
  ports_Set (pretty z) p = (None, p ++ [z]).
Proof. intros Hrange. unfold ports_Set. by rewrite Atoi_pretty. Qed.

Lemma ports_Set_keeps_any_int_witness :
  ports_Set (pretty (-70000)%Z) [80%Z] = (None, [80%Z] ++ [(-70000)%Z]).
Proof. apply (ports_Set_keeps_any_int (-70000) [80%Z]). lia. Defined.

Lemma digits_value_non_digit (s : string) (acc : Z) :
  has_non_digit s = true → digits_value acc s = None.
Proof.
  revert acc. induction s as [|c s IH]; intros acc; simpl; [done|].
  destruct (digit_value c); [|done]. simpl. apply IH.
Qed.

(** X17: [ports.Set] refuses the empty value and every value with a
    character after its first that is no decimal digit, a space at either
    end among them: the ports set before stay as they were, and the error
    quotes the value. *)
Theorem ports_Set_refuses (value : string) (p : list Z) :
  value = "" ∨ tail_has_non_digit value = true →
  ports_Set value p = (Some ("Invalid port: " +:+ value), p).
Proof.
  intros Hbad. unfold ports_Set.
  assert (Atoi value = None) as ->; [|done].
  destruct Hbad as [->|Htail]; [done|].
  destruct value as [|c s]; [done|]. simpl in Htail. unfold Atoi.
  destruct ((c =? "-")%char || (c =? "+")%char).
  - destruct s as [|c' s']; [done|]. by rewrite digits_value_non_digit.
  - rewrite digits_value_non_digit; [done|].
    simpl. rewrite Htail. by destruct (digit_value c).
Qed.

Lemma ports_Set_refuses_witness :
  ports_Set "80 " [22%Z] = (Some "Invalid port: 80 ", [22%Z]).
Proof. apply (ports_Set_refuses "80 " [22%Z]). by right. Defined.

Lemma write_rows_app (age : nat → Image → string) (quiet : bool) (k : nat)
    (rows rows' : list Row) :
  write_rows age quiet k (rows ++ rows')
  = write_rows age quiet k rows ++ write_rows age quiet (k + length rows) rows'.
Proof.
  revert k. induction rows as [|r rows IH]; intros k; simpl.
  - by rewrite Nat.add_0_r.
  - rewrite IH, <- app_assoc. do 3 f_equal. lia.
Qed.

Lemma delete_all_app (ids ids' : list string) (all : gmap string Image) :
  delete_all (ids ++ ids') all = delete_all ids' (delete_all ids all).
Proof. apply fold_left_app. Qed.

Lemma lookup_delete_all (ids : list string) (all : gmap string Image) (id : string) :
  delete_all ids all !! id = if decide (id ∈ ids) then None else all !! id.
Proof.
  revert all. induction ids as [|i ids IH]; intros all.
  - destruct (decide (id ∈ [])) as [Hin|_]; [|done]. by apply elem_of_nil in Hin.
  - change (delete_all (i :: ids) all) with (delete_all ids (delete i all)).
    rewrite IH.
    destruct (decide (id ∈ ids)) as [Hin|Hout];
      destruct (decide (id ∈ i :: ids)) as [Hin'|Hout']; try done.
    + destruct Hout'. apply elem_of_cons. by right.
    + apply elem_of_cons in Hin' as [->|?]; [|done]. apply lookup_delete_eq.
    + rewrite lookup_delete_ne; [done|]. intros ->. apply Hout', elem_of_cons. by left.
Qed.

Lemma bind_Permutation_ext {A B : Type} (f f' : A → list B) (l : list A) :
  (∀ x, f x ≡ₚ f' x) → l ≫= f ≡ₚ l ≫= f'.
Proof.
  intros Hf. induction l as [|x l IH]; [done|]. simpl.
  by rewrite (Hf x), IH.
Qed.

Section ImagesMore.
Context (o : Ranges) (age : nat → Image → string) (g : Graph) (quiet : bool).

Lemma tags_loop_cons (name tag id : string) (tags : list (string * string))
    (l : Listing) :
  tags_loop age g quiet name ((tag, id) :: tags) l
  = tags_loop age g quiet name tags
      match Get g id with
      | Err _ => l
      | Ok image =>
          show age quiet name tag id image
            (mkListing (delete id (allImages l)) (written l) (shown l))
      end.
Proof. done. Qed.

Lemma tags_loop_rows (name : string) (tags : list (string * string)) (l : Listing) :
  tags_loop age g quiet name tags l
  = mkListing (delete_all (row_id <$> tagged_rows g name tags) (allImages l))
      (written l ++ write_rows age quiet (shown l) (tagged_rows g name tags))
      (shown l + length (tagged_rows g name tags)).
Proof.
  revert l. induction tags as [|[tag id] tags IH]; intros l.
  - destruct l. simpl. by rewrite app_nil_r, Nat.add_0_r.
  - rewrite tags_loop_cons, IH. unfold Get. simpl.
    destruct (g !! id) as [e|] eqn:Hid; simpl; [|done].
    rewrite <- app_assoc. f_equal. lia.
Qed.

Lemma repositories_loop_cons (nameFilter name : string)
    (repository : gmap string string)
    (repositories : list (string * gmap string string)) (l : Listing) :
  repositories_loop o age g quiet nameFilter ((name, repository) :: repositories) l
  = repositories_loop o age g quiet nameFilter repositories
      (if negb (nameFilter =? "")%string && negb (name =? nameFilter)%string then l
       else tags_loop age g quiet name (range_tags o name repository) l).
Proof. done. Qed.

(** The rows [CmdImages] shows for the tags, in the order it shows them. *)
Lemma repositories_loop_rows (nameFilter : string)
    (repositories : list (string * gmap string string)) (l : Listing) :
  let rows :=
    '(name, repository) ← repositories;
    if selected nameFilter name
    then tagged_rows g name (range_tags o name repository) else [] in
  repositories_loop o age g quiet nameFilter repositories l
  = mkListing (delete_all (row_id <$> rows) (allImages l))
      (written l ++ write_rows age quiet (shown l) rows)
      (shown l + length rows).
Proof.
  revert l. induction repositories as [|[name repository] repositories IH]; intros l.
  - destruct l. simpl. by rewrite app_nil_r, Nat.add_0_r.
  - rewrite repositories_loop_cons, IH. cbv zeta.
    change (((name, repository) :: repositories) ≫= ?f)
      with (f (name, repository) ++ (repositories ≫= f)).
    set (rest := repositories ≫= _). cbv beta iota.
    replace (negb (nameFilter =? "")%string && negb (name =? nameFilter)%string)
      with (negb (selected nameFilter name))
      by (unfold selected; by destruct (nameFilter =? "")%string, (name =? nameFilter)%string).
    destruct (selected nameFilter name); simpl; [|done].
    rewrite tags_loop_rows. simpl.
    rewrite fmap_app, delete_all_app, write_rows_app, length_app, <- app_assoc.
    by rewrite Nat.add_assoc.
Qed.

Lemma untagged_loop_cons (id : string) (image : Image)
    (images : list (string * Image)) (l : Listing) :
  untagged_loop age quiet ((id, image) :: images) l
  = untagged_loop age quiet images (show age quiet "" "" id image l).
Proof. done. Qed.

Lemma untagged_loop_rows (images : list (string * Image)) (l : Listing) :
  untagged_loop age quiet images l
  = mkListing (allImages l)
      (written l
       ++ write_rows age quiet (shown l)
            ((λ '(id, image), mkRow "" "" id image) <$> images))
      (shown l + length images).
Proof.
  revert l. induction images as [|[id image] images IH]; intros l.
  - destruct l. simpl. by rewrite app_nil_r, Nat.add_0_r.
  - rewrite untagged_loop_cons, IH. simpl. rewrite <- app_assoc. f_equal. lia.
Qed.

Lemma tagged_rows_range (nameFilter : string) (repositories : Repositories) :
  ('(name, repository) ← range_repositories o repositories;
   if selected nameFilter name
   then tagged_rows g name (range_tags o name repository) else [])
  ≡ₚ all_tagged_rows g nameFilter repositories.
Proof.
  unfold all_tagged_rows. rewrite (range_repositories_perm o repositories).
  apply bind_Permutation_ext. intros [name repository].
  destruct (selected nameFilter name); [|done].
  unfold tagged_rows. by rewrite (range_tags_perm o name repository).
Qed.

Lemma untagged_rows_range (images : gmap string Image) (rows rows' : list Row) :
  rows ≡ₚ rows' →
  ((λ '(id, image), mkRow "" "" id image)
     <$> range_images o (delete_all (row_id <$> rows) images))
  ≡ₚ untagged_rows "" images rows'.
Proof.
  intros Hrows. unfold untagged_rows. simpl.
  apply fmap_Permutation. rewrite (range_images_perm o).
  apply NoDup_Permutation.
  - apply NoDup_map_to_list.
  - apply NoDup_filter, NoDup_map_to_list.
  - intros [id image]. rewrite list_elem_of_filter, !elem_of_map_to_list.
    rewrite lookup_delete_all. rewrite <- Hrows.
    destruct (decide (id ∈ row_id <$> rows)); simpl; intuition done.
Qed.

(** What [CmdImages] writes when [graph.Map] answers and there is one
    argument at most. *)
Lemma CmdImages_rows (images : gmap string Image) (repositories : Repositories)
    (args : list string) :
  length args ≤ 1 →
  ∃ tagged untagged,
    CmdImages o age g quiet (Ok images) repositories (Positional args)
    = (None, listing quiet (write_rows age quiet 0 (tagged ++ untagged)))
    ∧ tagged ≡ₚ all_tagged_rows g (if args is [arg] then arg else "") repositories
    ∧ untagged ≡ₚ untagged_rows (if args is [arg] then arg else "") images
                    (all_tagged_rows g (if args is [arg] then arg else "") repositories).
Proof.
  intros Hargs. unfold CmdImages.
  replace (1 <? length args)%nat with false
    by (symmetry; apply Nat.ltb_ge; lia).
  set (nameFilter := if args is [arg] then arg else "").
  rewrite repositories_loop_rows. simpl.
  set (tagged := _ ≫= _).
  pose proof (tagged_rows_range nameFilter repositories) as Htagged.
  fold tagged in Htagged.
  destruct (nameFilter =? "")%string eqn:Hall.
  - apply String.eqb_eq in Hall. rewrite Hall in *.
    rewrite untagged_loop_rows. simpl.
    eexists tagged, _. split; [|split; [done|]].
    + unfold listing. rewrite write_rows_app, <- !app_assoc. simpl. reflexivity.
    + by apply untagged_rows_range.
  - exists tagged, []. split; [|split; [done|]].
    + unfold listing. simpl. by rewrite app_nil_r, <- app_assoc.
    + unfold untagged_rows. by rewrite Hall.
Qed.

(** X18: whatever the orders in which Go goes over the maps, the rows of
    [CmdImages] are, up to their order, one row for each tag of the
    selected repositories whose image the graph has, a tag whose image is
    missing being passed over without an error, and then, when no name is
    given, one row for each image that none of these rows shows. *)
Theorem CmdImages_listing (images : gmap string Image) (repositories : Repositories)
    (args : list string) :
  length args ≤ 1 →
  ∃ tagged untagged,
    CmdImages o age g quiet (Ok images) repositories (Positional args)
    = (None, listing quiet (write_rows age quiet 0 (tagged ++ untagged)))
    ∧ tagged ≡ₚ all_tagged_rows g (if args is [arg] then arg else "") repositories
    ∧ untagged ≡ₚ untagged_rows (if args is [arg] then arg else "") images
                    (all_tagged_rows g (if args is [arg] then arg else "") repositories).
Proof. apply CmdImages_rows. Qed.

(** X19: without a name, [CmdImages] shows every image that [graph.Map]
    has answered, in one row at least. *)
Theorem CmdImages_shows_every_image (images : gmap string Image)
    (repositories : Repositories) :
  ∃ rows,
    CmdImages o age g quiet (Ok images) repositories (Positional [])
    = (None, listing quiet (write_rows age quiet 0 rows))
    ∧ ∀ id, is_Some (images !! id) → id ∈ row_id <$> rows.
Proof.
  destruct (CmdImages_rows images repositories []) as (tagged & untagged & Hrun & Ht & Hu);
    [simpl; lia|].
  exists (tagged ++ untagged). split; [done|].
  intros id [image Hid]. rewrite fmap_app, elem_of_app.
  destruct (decide (id ∈ row_id <$> tagged)) as [Hin|Hout]; [by left|right].
  rewrite Hu. unfold untagged_rows. simpl.
  apply list_elem_of_fmap. exists (mkRow "" "" id image). split; [done|].
  apply list_elem_of_fmap. exists (id, image). split; [done|].
  apply list_elem_of_filter. split.
  - by rewrite <- Ht.
  - by apply elem_of_map_to_list.
Qed.

Lemma all_tagged_rows_of (name : string) (repositories : Repositories) :
  name ≠ "" →
  all_tagged_rows g name repositories
  ≡ₚ tagged_rows g name (map_to_list (default ∅ (repositories !! name))).
Proof.
  intros Hname. unfold all_tagged_rows.
  induction repositories as [|i x m Hi IH] using map_ind.
  - by rewrite lookup_empty, map_to_list_empty.
  - rewrite map_to_list_insert by done.
    change (((i, x) :: map_to_list m) ≫= ?f) with (f (i, x) ++ (map_to_list m ≫= f)).
    rewrite IH. cbv beta iota. unfold selected.
    replace (name =? "")%string with false
      by (symmetry; by apply String.eqb_neq).
    destruct (String.eqb_spec i name) as [->|Hne]; simpl.
    + rewrite lookup_insert_eq, Hi. simpl. rewrite map_to_list_empty.
      by rewrite app_nil_r.
    + by rewrite lookup_insert_ne.
Qed.

(** X20: with a name, [CmdImages] shows the tags of the repository of
    that name and nothing else: one row, bearing the name, for each of its
    tags whose image the graph has, and no row for an image without a tag.
    When there is no repository of that name it shows no row and returns
    nil. *)
Theorem CmdImages_of_one_repository (images : gmap string Image)
    (repositories : Repositories) (name : string) :
  name ≠ "" →
  ∃ rows,
    CmdImages o age g quiet (Ok images) repositories (Positional [name])
    = (None, listing quiet (write_rows age quiet 0 rows))
    ∧ rows ≡ₚ tagged_rows g name (map_to_list (default ∅ (repositories !! name)))
    ∧ Forall (λ r, row_name r = name) rows
    ∧ (repositories !! name = None → rows = []).
Proof.
  intros Hname.
  destruct (CmdImages_rows images repositories [name]) as (tagged & untagged & Hrun & Ht & Hu);
    [simpl; lia|].
  rewrite all_tagged_rows_of in Ht by done.
  unfold untagged_rows in Hu.
  replace (name =? "")%string with false in Hu
    by (symmetry; by apply String.eqb_neq).
  apply Permutation_nil_r in Hu as ->. rewrite app_nil_r in Hrun.
  exists tagged. split; [done|]. split; [done|]. split.
  - rewrite Ht. unfold tagged_rows. apply Forall_forall. intros r.
    rewrite list_elem_of_omap. intros ([tag id] & _ & Hr).
    destruct (g !! id); by simplify_eq.
  - intros Hnone. rewrite Hnone in Ht. simpl in Ht. rewrite map_to_list_empty in Ht.
    by apply Permutation_nil_r in Ht.
Qed.

End ImagesMore.

Lemma CmdImages_listing_witness :
  ∃ tagged untagged,
    CmdImages canonical_ranges (λ _ _, "3 days") graph_ABC true
      (Ok (image <$> graph_ABC)) {[ "base" := {[ "latest" := "B"; "old" := "gone" ]} ]}
      (Positional [])
    = (None, listing true (write_rows (λ _ _, "3 days") true 0 (tagged ++ untagged)))
    ∧ tagged ≡ₚ all_tagged_rows graph_ABC ""
                   {[ "base" := {[ "latest" := "B"; "old" := "gone" ]} ]}
    ∧ untagged ≡ₚ untagged_rows "" (image <$> graph_ABC)
                    (all_tagged_rows graph_ABC ""
                       {[ "base" := {[ "latest" := "B"; "old" := "gone" ]} ]}).
Proof.
  apply (CmdImages_listing canonical_ranges (λ _ _, "3 days") graph_ABC true
           (image <$> graph_ABC) {[ "base" := {[ "latest" := "B"; "old" := "gone" ]} ]} []).
  simpl. lia.
Defined.

Lemma CmdImages_of_one_repository_witness :
  ∃ rows,
    CmdImages canonical_ranges (λ _ _, "3 days") graph_ABC false
      (Ok (image <$> graph_ABC)) {[ "base" := {[ "latest" := "B"; "old" := "gone" ]} ]}
      (Positional ["base"])
    = (None, listing false (write_rows (λ _ _, "3 days") false 0 rows))
    ∧ rows ≡ₚ tagged_rows graph_ABC "base"
                 (map_to_list
                    (default ∅ (({[ "base" := {[ "latest" := "B"; "old" := "gone" ]} ]}
                                  : Repositories) !! "base")))
    ∧ Forall (λ r, row_name r = "base") rows
    ∧ ((({[ "base" := {[ "latest" := "B"; "old" := "gone" ]} ]} : Repositories)
          !! "base") = None → rows = []).
Proof.
  apply (CmdImages_of_one_repository canonical_ranges (λ _ _, "3 days") graph_ABC false
           (image <$> graph_ABC) {[ "base" := {[ "latest" := "B"; "old" := "gone" ]} ]}
           "base").
  done.
Defined.
